(** * AudioCutter-Pro: the region and clip engine of [WaveformEditor]

    A shallow embedding of the handlers of the [WaveformEditor] component
    (region list, slicing for export, transcript overlay, transcription
    trigger) and of the WAV encoder it calls.

    Conventions of the embedding.
    - A JavaScript number that holds a time is a rational [Q]: every finite
      double is a rational, [Math.floor] is exact, and the one rounding of the
      product [time * sampleRate] is idealised to the exact product.
    - A [Float32Array] element is a [sample]; reading a typed array outside
      its bounds gives [undefined], which a typed array stores as [NaN].
    - The regions plugin of wavesurfer.js is used through [addRegion],
      [getRegions] and [Region.remove]; it is embedded as the collection these
      calls assume: regions kept in insertion order, each one an object with
      its own identity ([oid]), stored with the options it was created from.
    - React state cells and refs are the fields of one [Session] record; a
      handler reads the cell where the source reads the variable of that
      name.
    - [handleTranscribe] is asynchronous: it is embedded as the part that
      runs up to the first [await] and one function per resumption; the
      fields [callsPending] and [requestsSent] record what it leaves outside
      the component.
    - [audioBufferToWav] belongs to [utils/audioUtils], which is not among
      the sources; the encoder is modelled from the specification. *)

From Stdlib Require Import ZArith QArith Qround Qminmax Lia Lqa.
From Stdlib Require Import Sorted Permutation Ascii.
From stdpp Require Import list strings pretty.

Local Open Scope string_scope.
Local Open Scope list_scope.
Local Open Scope Q_scope.

(** ** Data model *)

(** One element of a [Float32Array]. *)
Inductive sample : Type :=
| Finite (v : Q)
| NaN.

(** The Web Audio [AudioBuffer]: [length] frames in each of
    [numberOfChannels] channels. *)
Record AudioBuffer : Type := mkAudioBuffer {
  sampleRate : Z;
  bufLength : nat;
  channelData : list (list sample)
}.

Definition numberOfChannels (b : AudioBuffer) : nat := length (channelData b).


(** Every channel of a buffer holds [length] samples. *)
Definition wfBuffer (b : AudioBuffer) : Prop :=
  Forall (fun c => length c = bufLength b) (channelData b).

(** The [content] option of a region: a string, or the [div] element that
    [renderTranscriptRegions] builds (its text and its text colour). *)
Inductive Content : Type :=
| ContentText (s : string)
| ContentElement (text : string) (textColor : string).

(** The options object passed to the plugin's [addRegion]. *)
Record RegionParams : Type := mkParams {
  p_id : option string;
  p_start : Q;
  p_end : Q;
  p_content : Content;
  p_color : string;
  p_drag : bool;
  p_resize : bool
}.

(** A [Region] object of the plugin. [oid] stands for the identity of the
    JavaScript object ([reg !== region]). *)
Record Region : Type := mkRegion {
  oid : nat;
  id : string;
  start : Q;
  end_ : Q;
  content : Content;
  color : string;
  drag : bool;
  resize : bool
}.

(** [RegionData] of [types.ts], as built by [updateUserRegionsList]. *)
Record RegionData : Type := mkRegionData {
  rd_id : string;
  rd_start : Q;
  rd_end : Q;
  rd_color : string
}.

Record TranscriptSegment : Type := mkSegment {
  seg_start : Q;
  seg_end : Q;
  seg_text : string
}.

(** ** The regions plugin *)

Record RegionsPlugin : Type := mkPlugin {
  regions : list Region;
  nextOid : nat
}.

Definition getRegions (p : RegionsPlugin) : list Region := regions p.

(** [params.id || `region-${random}`]: an absent or empty id is replaced by a
    generated one; [rnd] is the random suffix drawn for this call. *)
Definition regionId (rnd : string) (o : RegionParams) : string :=
  match p_id o with
  | Some s => if String.eqb s "" then "region-" +:+ rnd else s
  | None => "region-" +:+ rnd
  end.

Definition newRegion (rnd : string) (o : RegionParams) (n : nat) : Region :=
  {| oid := n; id := regionId rnd o; start := p_start o; end_ := p_end o;
     content := p_content o; color := p_color o;
     drag := p_drag o; resize := p_resize o |}.

(** [plugin.addRegion(options)]: the new region is pushed at the end of the
    list and returned. The [region-created] event that follows is dispatched
    by the caller ([emitRegionCreated] below). *)
Definition plugin_addRegion (rnd : string) (o : RegionParams) (p : RegionsPlugin)
  : Region * RegionsPlugin :=
  let r := newRegion rnd o (nextOid p) in
  (r, {| regions := regions p ++ [r]; nextOid := S (nextOid p) |}).

(** [region.remove()]: [this.regions = this.regions.filter(reg => reg !== region)]. *)
Definition Region_remove (r : Region) (p : RegionsPlugin) : RegionsPlugin :=
  {| regions := filter (fun x => negb (Nat.eqb (oid x) (oid r))) (regions p);
     nextOid := nextOid p |}.

(** Object identities are distinct and below the allocation counter. *)
Definition wfPlugin (p : RegionsPlugin) : Prop :=
  NoDup (oid <$> regions p) /\ Forall (fun r => (oid r < nextOid p)%nat) (regions p).

(** [r.id.startsWith('transcript-')] *)
Definition isTranscriptId (s : string) : bool := String.prefix "transcript-" s.

Definition isUserRegion (r : Region) : bool := negb (isTranscriptId (id r)).

(** ** [Array.prototype.sort] with a comparator

    The sort of an array is stable; [cmp a b <= 0] keeps [a] before [b]. *)
Section Sort.
Context {A : Type} (cmp : A -> A -> Q).

Fixpoint sortInsert (x : A) (l : list A) : list A :=
  match l with
  | [] => [x]
  | y :: l' => if Qle_bool (cmp x y) 0 then x :: y :: l' else y :: sortInsert x l'
  end.

Definition arraySort (l : list A) : list A := foldr sortInsert [] l.
End Sort.

(** ** [updateUserRegionsList] *)

Definition toRegionData (r : Region) : RegionData :=
  {| rd_id := id r; rd_start := start r; rd_end := end_ r; rd_color := color r |}.

(** The value handed to [setUserRegions]. *)
Definition formattedRegions (wsRegions : list Region) : list RegionData :=
  toRegionData
    <$> arraySort (fun a b => start a - start b)
                  (filter (fun r => negb (isTranscriptId (id r))) wsRegions).

(** ** The slicer of [exportRegion] *)

(** [Math.floor(time * sampleRate)] *)
Definition toFrame (t : Q) (sr : Z) : Z := Qfloor (t * inject_Z sr).

(** [channelData[i]] on a [Float32Array]: [undefined] outside the array. *)
Definition readSample (a : list sample) (i : Z) : option sample :=
  if (i <? 0)%Z then None else a !! Z.to_nat i.

(** The value a [Float32Array] stores when assigned [v]: [undefined]
    becomes [NaN]. *)
Definition toFloat32 (v : option sample) : sample :=
  match v with
  | Some x => x
  | None => NaN
  end.

(** [new AudioContext().createBuffer(channels, frames, rate)]: silence. *)
Definition createBuffer (nch frames : nat) (sr : Z) : AudioBuffer :=
  {| sampleRate := sr; bufLength := frames;
     channelData := replicate nch (replicate frames (Finite 0)) |}.

(** [buffer.getChannelData(i)] for a channel index the caller keeps below
    [numberOfChannels]. *)
Definition getChannelData (b : AudioBuffer) (i : nat) : list sample :=
  match channelData b !! i with
  | Some c => c
  | None => []
  end.

(** The inner loop [for (j ...; j < frameCount; j++)], entered at [j] with
    [n] iterations left: [newChannelData[j] = channelData[startFrame + j]]. *)
Fixpoint copyFrames (src : list sample) (startFrame : Z) (j n : nat)
         (dst : list sample) : list sample :=
  match n with
  | O => dst
  | S n' =>
      copyFrames src startFrame (S j) n'
                 (<[j := toFloat32 (readSample src (startFrame + Z.of_nat j))]> dst)
  end.

(** The outer loop [for (i ...; i < buffer.numberOfChannels; i++)], entered
    at [i] with [n] iterations left. *)
Fixpoint copyChannels (buffer : AudioBuffer) (startFrame : Z) (frameCount : nat)
         (i n : nat) (newBuffer : AudioBuffer) : AudioBuffer :=
  match n with
  | O => newBuffer
  | S n' =>
      let channel := getChannelData buffer i in
      let newChannel := getChannelData newBuffer i in
      copyChannels buffer startFrame frameCount (S i) n'
        {| sampleRate := sampleRate newBuffer; bufLength := bufLength newBuffer;
           channelData :=
             <[i := copyFrames channel startFrame 0 frameCount newChannel]>
               (channelData newBuffer) |}
  end.

(** Lines 221-240 of [exportRegion]: the new buffer, or nothing when the
    region holds no frame. *)
Definition sliceRegion (buffer : AudioBuffer) (rstart rend : Q) : option AudioBuffer :=
  let sr := sampleRate buffer in
  let startFrame := toFrame rstart sr in
  let endFrame := toFrame rend sr in
  let frameCount := (endFrame - startFrame)%Z in
  if (frameCount <=? 0)%Z then None
  else
    let newBuffer := createBuffer (numberOfChannels buffer) (Z.to_nat frameCount) sr in
    Some (copyChannels buffer startFrame (Z.to_nat frameCount)
                       0 (numberOfChannels buffer) newBuffer).

(** ** The editor session *)

(** What the handlers use of the [WaveSurfer] instance. *)
Record WaveSurfer : Type := mkWaveSurfer {
  ws_currentTime : Q;
  ws_duration : Q;
  ws_decodedData : option AudioBuffer
}.

(** Props of the component and the build environment it reads. *)
Record Env : Type := mkEnv {
  isDarkMode : bool;
  enableTranscription : bool;
  API_KEY : option string
}.

(** Refs and state cells of the component, and the effects the handlers
    leave outside it: requests sent to the transcription service, calls of
    [handleTranscribe] suspended at an [await], lines of [console.error]. *)
Record Session : Type := mkSession {
  wavesurferRef : option WaveSurfer;
  regionsPluginRef : option RegionsPlugin;
  duration : Q;
  userRegions : list RegionData;
  activeRegionId : option string;
  isReady : bool;
  isTranscribing : bool;
  transcriptSegments : list TranscriptSegment;
  showTranscriptOnWave : bool;
  requestsSent : nat;
  callsPending : nat;
  consoleErrors : list string
}.

Definition set_plugin (p : option RegionsPlugin) (s : Session) : Session :=
  mkSession (wavesurferRef s) p (duration s) (userRegions s) (activeRegionId s)
            (isReady s) (isTranscribing s) (transcriptSegments s)
            (showTranscriptOnWave s) (requestsSent s) (callsPending s) (consoleErrors s).

Definition setDuration (d : Q) (s : Session) : Session :=
  mkSession (wavesurferRef s) (regionsPluginRef s) d (userRegions s) (activeRegionId s)
            (isReady s) (isTranscribing s) (transcriptSegments s)
            (showTranscriptOnWave s) (requestsSent s) (callsPending s) (consoleErrors s).

Definition setUserRegions (l : list RegionData) (s : Session) : Session :=
  mkSession (wavesurferRef s) (regionsPluginRef s) (duration s) l (activeRegionId s)
            (isReady s) (isTranscribing s) (transcriptSegments s)
            (showTranscriptOnWave s) (requestsSent s) (callsPending s) (consoleErrors s).

Definition setActiveRegionId (a : option string) (s : Session) : Session :=
  mkSession (wavesurferRef s) (regionsPluginRef s) (duration s) (userRegions s) a
            (isReady s) (isTranscribing s) (transcriptSegments s)
            (showTranscriptOnWave s) (requestsSent s) (callsPending s) (consoleErrors s).

Definition setIsReady (b : bool) (s : Session) : Session :=
  mkSession (wavesurferRef s) (regionsPluginRef s) (duration s) (userRegions s)
            (activeRegionId s) b (isTranscribing s) (transcriptSegments s)
            (showTranscriptOnWave s) (requestsSent s) (callsPending s) (consoleErrors s).

Definition setIsTranscribing (b : bool) (s : Session) : Session :=
  mkSession (wavesurferRef s) (regionsPluginRef s) (duration s) (userRegions s)
            (activeRegionId s) (isReady s) b (transcriptSegments s)
            (showTranscriptOnWave s) (requestsSent s) (callsPending s) (consoleErrors s).

Definition setTranscriptSegments (l : list TranscriptSegment) (s : Session) : Session :=
  mkSession (wavesurferRef s) (regionsPluginRef s) (duration s) (userRegions s)
            (activeRegionId s) (isReady s) (isTranscribing s) l
            (showTranscriptOnWave s) (requestsSent s) (callsPending s) (consoleErrors s).

Definition setShowTranscriptOnWave (b : bool) (s : Session) : Session :=
  mkSession (wavesurferRef s) (regionsPluginRef s) (duration s) (userRegions s)
            (activeRegionId s) (isReady s) (isTranscribing s) (transcriptSegments s)
            b (requestsSent s) (callsPending s) (consoleErrors s).

Definition set_requestsSent (n : nat) (s : Session) : Session :=
  mkSession (wavesurferRef s) (regionsPluginRef s) (duration s) (userRegions s)
            (activeRegionId s) (isReady s) (isTranscribing s) (transcriptSegments s)
            (showTranscriptOnWave s) n (callsPending s) (consoleErrors s).

Definition set_callsPending (n : nat) (s : Session) : Session :=
  mkSession (wavesurferRef s) (regionsPluginRef s) (duration s) (userRegions s)
            (activeRegionId s) (isReady s) (isTranscribing s) (transcriptSegments s)
            (showTranscriptOnWave s) (requestsSent s) n (consoleErrors s).

Definition consoleError (msg : string) (s : Session) : Session :=
  mkSession (wavesurferRef s) (regionsPluginRef s) (duration s) (userRegions s)
            (activeRegionId s) (isReady s) (isTranscribing s) (transcriptSegments s)
            (showTranscriptOnWave s) (requestsSent s) (callsPending s)
            (consoleErrors s ++ [msg]).

(** The regions of the plugin behind the ref, [[]] when the ref is null
    ([regionsPluginRef.current?.getRegions() || []]). *)
Definition currentRegions (s : Session) : list Region :=
  match regionsPluginRef s with
  | Some p => getRegions p
  | None => []
  end.

Definition updateUserRegionsList (wsRegions : list Region) (s : Session) : Session :=
  setUserRegions (formattedRegions wsRegions) s.

(** The handler of [region-created] (lines 127-131). *)
Definition onRegionCreated (region : Region) (s : Session) : Session :=
  if isTranscriptId (id region) then s
  else updateUserRegionsList (currentRegions s) (setActiveRegionId (Some (id region)) s).

(** The handler of [region-updated] (lines 133-136). *)
Definition onRegionUpdated (region : Region) (s : Session) : Session :=
  if isTranscriptId (id region) then s
  else updateUserRegionsList (currentRegions s) s.

(** [regionsPluginRef.current.addRegion(options)] seen from the component:
    the plugin stores the region, then emits [region-created]. *)
Definition pluginAddRegion (rnd : string) (o : RegionParams) (p : RegionsPlugin)
           (s : Session) : Session :=
  let '(r, p') := plugin_addRegion rnd o p in
  onRegionCreated r (set_plugin (Some p') s).

Definition userRegionColor : string := "rgba(99, 102, 241, 0.3)".

(** [addRegion] (lines 187-200). *)
Definition addRegion (rnd : string) (s : Session) : Session :=
  match regionsPluginRef s, wavesurferRef s with
  | Some p, Some ws =>
      let currentTime := ws_currentTime ws in
      pluginAddRegion rnd
        {| p_id := None; p_start := currentTime; p_end := currentTime + 5;
           p_content := ContentText "片段"; p_color := userRegionColor;
           p_drag := true; p_resize := true |} p s
  | _, _ => s
  end.

(** [getRegions().find(r => r.id === id)] *)
Definition findRegion (rid : string) (s : Session) : option Region :=
  match regionsPluginRef s with
  | Some p => List.find (fun r => String.eqb (id r) rid) (getRegions p)
  | None => None
  end.

(** [removeRegion] (lines 202-206). *)
Definition removeRegion (rid : string) (s : Session) : Session :=
  let s1 :=
    match findRegion rid s, regionsPluginRef s with
    | Some region, Some p => set_plugin (Some (Region_remove region p)) s
    | _, _ => s
    end in
  updateUserRegionsList (currentRegions s1) s1.

(** ** The transcript overlay *)

(** The template literal [`transcript-${idx}`]. *)
Definition transcriptId (idx : nat) : string :=
  "transcript-" +:+ pretty idx.

(** The options built for one segment in [renderTranscriptRegions]. *)
Definition transcriptParams (env : Env) (seg : TranscriptSegment) (idx : nat)
  : RegionParams :=
  {| p_id := Some (transcriptId idx);
     p_start := seg_start seg;
     p_end := seg_end seg;
     p_content :=
       ContentElement (seg_text seg) (if isDarkMode env then "#e0e7ff" else "#312e81");
     p_color :=
       if isDarkMode env then "rgba(255, 255, 255, 0.05)" else "rgba(0, 0, 0, 0.05)";
     p_drag := false;
     p_resize := false |}.

(** [regions.forEach(r => { if (r.id.startsWith('transcript-')) r.remove() })]
    over the array that [getRegions] returned. *)
Definition removeTranscriptRegions (p : RegionsPlugin) : RegionsPlugin :=
  foldl (fun q r => if isTranscriptId (id r) then Region_remove r q else q)
        p (getRegions p).

(** [segments.forEach((seg, idx) => ...)], entered at index [idx]. *)
Fixpoint addTranscriptRegions (env : Env) (segments : list TranscriptSegment)
         (idx : nat) (s : Session) : Session :=
  match segments with
  | [] => s
  | seg :: rest =>
      let s' :=
        match regionsPluginRef s with
        | Some p => pluginAddRegion "" (transcriptParams env seg idx) p s
        | None => s
        end in
      addTranscriptRegions env rest (S idx) s'
  end.

(** [renderTranscriptRegions] (lines 339-377). *)
Definition renderTranscriptRegions (env : Env) (segments : list TranscriptSegment)
           (s : Session) : Session :=
  match regionsPluginRef s with
  | None => s
  | Some p =>
      let s1 := set_plugin (Some (removeTranscriptRegions p)) s in
      if negb (showTranscriptOnWave s1) then s1
      else addTranscriptRegions env segments 0 s1
  end.

(** The effect on [[showTranscriptOnWave, isDarkMode]] (lines 379-381), run
    after the eye button has flipped the cell. *)
Definition toggleTranscriptOnWave (env : Env) (s : Session) : Session :=
  let s1 := setShowTranscriptOnWave (negb (showTranscriptOnWave s)) s in
  renderTranscriptRegions env (transcriptSegments s1) s1.

(** ** Transcription *)

(** [!process.env.API_KEY]: the key is absent or the empty string. *)
Definition noApiKey (env : Env) : bool :=
  match API_KEY env with
  | Some k => String.eqb k ""
  | None => true
  end.

(** [handleTranscribe] (lines 272-337) up to its first [await]: the guard,
    then the flag is raised and the call is suspended reading the file. *)
Definition handleTranscribe (env : Env) (s : Session) : Session :=
  if noApiKey env || isTranscribing s then s
  else set_callsPending (S (callsPending s)) (setIsTranscribing true s).

(** The [finally] block, which ends the suspended call. *)
Definition transcribeFinally (s : Session) : Session :=
  set_callsPending (pred (callsPending s)) (setIsTranscribing false s).

(** [handleTranscribe] resumed after [await fileToBase64(file)]: the request
    is sent, or the rejection is caught and logged. *)
Definition transcribeAfterRead (readOk : bool) (s : Session) : Session :=
  if readOk then set_requestsSent (S (requestsSent s)) s
  else transcribeFinally (consoleError "Transcription failed" s).

(** How the awaited request ends: it rejects, or it resolves with a text
    that [JSON.parse] rejects or turns into segments. *)
Inductive Reply : Type :=
| Rejected
| Unparsable
| Parsed (segments : list TranscriptSegment).

(** [handleTranscribe] resumed after [await ai.models.generateContent(...)]. *)
Definition transcribeAfterReply (env : Env) (r : Reply) (s : Session) : Session :=
  match r with
  | Rejected => transcribeFinally (consoleError "Transcription failed" s)
  | Unparsable => transcribeFinally (consoleError "JSON parse error" s)
  | Parsed parsed =>
      transcribeFinally
        (renderTranscriptRegions env parsed (setTranscriptSegments parsed s))
  end.

(** The handler of the decode-ready event (lines 107-114); [ws] is the
    player instance the handler closes over. *)
Definition onReady (env : Env) (ws : WaveSurfer) (s : Session) : Session :=
  let s1 := setIsReady true s in
  let s2 := setDuration (ws_duration ws) s1 in
  if enableTranscription env then handleTranscribe env s2 else s2.

(** ** The WAV encoder and [exportRegion] *)

Section Wav.
(** Modelled from the spec: the conversion of one sample to a signed 16-bit
    integer inside [audioBufferToWav] (of [utils/audioUtils], which is not
    among the sources). The specification fixes that it scales and clamps,
    not the scale factor, so the conversion is a parameter of the encoder. *)
Variable toInt16 : sample -> Z.

(** Modelled from the spec: a 16-bit field of the container, which is not
    among the sources; little endian, one [Z] below 256 per byte. *)
Definition u16le (v : Z) : list Z :=
  [(v mod 256)%Z; ((v / 256) mod 256)%Z].

(** Modelled from the spec: a 32-bit field of the container, little endian. *)
Definition u32le (v : Z) : list Z :=
  [(v mod 256)%Z; ((v / 256) mod 256)%Z;
   ((v / 65536) mod 256)%Z; ((v / 16777216) mod 256)%Z].

(** Modelled from the spec: one signed 16-bit sample of the data, in two's
    complement, little endian. *)
Definition i16le (v : Z) : list Z := u16le (v mod 65536).

(** Modelled from the spec: a four-character chunk tag of the container. *)
Definition fourCC (tag : string) : list Z :=
  map (fun c => Z.of_nat (Ascii.nat_of_ascii c)) (String.list_ascii_of_string tag).

(** Modelled from the spec: the header that [audioBufferToWav] of
    [utils/audioUtils] writes (that file is not among the sources): the
    canonical PCM header declaring format, channel count, sample rate,
    byte rate, block alignment, 16 bits per sample, and the two size
    fields. *)
Definition wavHeader (sr : Z) (nch frames : nat) : list Z :=
  let blockAlign := (Z.of_nat nch * 2)%Z in
  let dataSize := (Z.of_nat frames * blockAlign)%Z in
  fourCC "RIFF" ++ u32le (36 + dataSize) ++ fourCC "WAVE"
  ++ fourCC "fmt " ++ u32le 16 ++ u16le 1 ++ u16le (Z.of_nat nch)
  ++ u32le sr ++ u32le (sr * blockAlign) ++ u16le blockAlign ++ u16le 16
  ++ fourCC "data" ++ u32le dataSize.

(** Modelled from the spec: the fixed size of that header, in bytes. *)
Definition wavHeaderSize : nat := 44.

(** Modelled from the spec: the sample data of [audioBufferToWav], frame
    major and channel minor, two bytes per sample. *)
Definition wavData (b : AudioBuffer) : list Z :=
  flat_map
    (fun i => flat_map (fun c => i16le (toInt16 (toFloat32 (c !! i)))) (channelData b))
    (seq 0 (bufLength b)).

(** Modelled from the spec: [audioBufferToWav] of [utils/audioUtils], the
    bytes of the blob it returns. *)
Definition audioBufferToWav (b : AudioBuffer) : list Z :=
  wavHeader (sampleRate b) (numberOfChannels b) (bufLength b) ++ wavData b.

(** [exportRegion] (lines 213-242): the bytes of the blob offered for
    download, or nothing when the handler returns early. The download
    itself (anchor element, file name) is left out. *)
Definition exportRegion (rid : string) (s : Session) : option (list Z) :=
  match wavesurferRef s, findRegion rid s with
  | Some ws, Some region =>
      match ws_decodedData ws with
      | Some buffer =>
          match sliceRegion buffer (start region) (end_ region) with
          | Some newBuffer => Some (audioBufferToWav newBuffer)
          | None => None
          end
      | None => None
      end
  | _, _ => None
  end.
End Wav.

(** ** Auxiliary definitions of the statements *)

#[local] Instance Qeq_decision (x y : Q) : Decision (x == y) := Qeq_dec x y.

Definition isTranscriptRegion (r : Region) : bool := isTranscriptId (id r).

Definition wfSession (s : Session) : Prop :=
  match regionsPluginRef s with
  | Some p => wfPlugin p
  | None => True
  end.

(** What the copy loop leaves in a new channel of [frameCount] frames. *)
Definition copied (src : list sample) (startFrame : Z) (frameCount : nat) : list sample :=
  (fun k => toFloat32 (readSample src (startFrame + Z.of_nat k))) <$> seq 0 frameCount.

(** The regions that [renderTranscriptRegions] adds for [segments] when the
    plugin's allocation counter is at [n]: one per segment, in input order,
    named after the position of the segment. *)
Definition transcriptRegionsOf (env : Env) (segments : list TranscriptSegment)
           (idx n : nat) : list Region :=
  imap (fun i seg => newRegion "" (transcriptParams env seg (idx + i)) (n + i)) segments.

(** ** The operations as the specification words them *)



(** ** Example inputs *)

(** The source of the examples: two channels of four frames at 2 Hz, so a
    duration of two seconds. *)
Definition demoBuffer : AudioBuffer :=
  {| sampleRate := 2; bufLength := 4;
     channelData := [[Finite 1; Finite 2; Finite 3; Finite 4];
                     [Finite 5; Finite 6; Finite 7; Finite 8]] |}.

(** The player of the examples: the two-second source, decoded, with the
    cursor at 1 s. *)
Definition demoPlayer : WaveSurfer :=
  {| ws_currentTime := 1; ws_duration := 2; ws_decodedData := Some demoBuffer |}.

(** The session of the examples: that player, an empty plugin and the
    overlay shown. *)
Definition demoSession : Session :=
  {| wavesurferRef := Some demoPlayer;
     regionsPluginRef := Some {| regions := []; nextOid := 0 |};
     duration := 2; userRegions := []; activeRegionId := None; isReady := true;
     isTranscribing := false; transcriptSegments := []; showTranscriptOnWave := true;
     requestsSent := 0; callsPending := 0; consoleErrors := [] |}.

(** The environment of the examples: light theme, transcription requested,
    a key present. *)
Definition demoEnv : Env :=
  {| isDarkMode := false; enableTranscription := true; API_KEY := Some "key" |}.

(** The transcript of the specification's example. *)
Definition demoSegments : list TranscriptSegment :=
  [ {| seg_start := 1; seg_end := 1; seg_text := "x" |};
    {| seg_start := 2; seg_end := 3; seg_text := "y" |} ].

(** The session of the examples after one press of the mark button: the
    clip [region-abc], from 1 s to 6 s, is the active region. *)
Definition demoClipSession : Session := addRegion "abc" demoSession.


(** An environment with transcription requested and no key. *)
Definition demoNoKeyEnv : Env :=
  {| isDarkMode := false; enableTranscription := true; API_KEY := None |}.

(** The conversion used in the example: clamp to [-1, 1], scale by 32767
    and truncate. *)
Definition clampScale (x : sample) : Z :=
  match x with
  | Finite v => Qfloor (Qmax (-1) (Qmin 1 v) * 32767)
  | NaN => 0%Z
  end.

(** A stereo source of ten seconds at 44100 Hz with the clip (2.0, 5.0). *)
Definition demoCdSession : Session :=
  {| wavesurferRef :=
       Some {| ws_currentTime := 2; ws_duration := 10;
               ws_decodedData :=
                 Some {| sampleRate := 44100; bufLength := Z.to_nat 441000;
                         channelData := [replicate (Z.to_nat 441000) (Finite 0);
                                         replicate (Z.to_nat 441000) (Finite 0)] |} |};
     regionsPluginRef :=
       Some {| regions :=
                 [ {| oid := 0; id := "region-abc"; start := 2; end_ := 5;
                      content := ContentText "片段"; color := userRegionColor;
                      drag := true; resize := true |} ];
               nextOid := 1 |};
     duration := 10; userRegions := []; activeRegionId := None; isReady := true;
     isTranscribing := false; transcriptSegments := []; showTranscriptOnWave := true;
     requestsSent := 0; callsPending := 0; consoleErrors := [] |}.

(** * Further handlers of the component *)

(** ** Zoom *)

(** The [zoom] state cell and the pixels per second the player draws at
    ([minPxPerSec], set by [ws.zoom]); both start at 20. *)
Record ZoomCells : Type := mkZoomCells {
  zoom : Z;
  playerPxPerSec : Z
}.

Definition initialZoom : ZoomCells := {| zoom := 20; playerPxPerSec := 20 |}.

(** [handleZoom] (lines 180-185). *)
Definition handleZoom (delta : Z) (s : Session) (z : ZoomCells) : ZoomCells :=
  match wavesurferRef s with
  | None => z
  | Some _ =>
      let newZoom := Z.max 1 (Z.min 1000 (zoom z + delta)) in
      {| zoom := newZoom; playerPxPerSec := newZoom |}
  end.

(** The two zoom buttons (lines 439 and 447). *)
Definition zoomOutButton : Session -> ZoomCells -> ZoomCells := handleZoom (-10).
Definition zoomInButton : Session -> ZoomCells -> ZoomCells := handleZoom 10.

(** ** The name of the exported file *)

(** The class [[^/.]]: any character but the slash and the dot. *)
Definition isExtensionChar (c : Ascii.ascii) : bool :=
  negb (Ascii.eqb c "/"%char || Ascii.eqb c "."%char).

Fixpoint allExtensionChars (s : string) : bool :=
  match s with
  | EmptyString => true
  | String c r => isExtensionChar c && allExtensionChars r
  end.

(** Whether [/\.[^/.]+$/] matches the whole of [s]: a dot, then at least
    one character of the class up to the end of the string. *)
Definition matchesExtension (s : string) : bool :=
  match s with
  | String c r => Ascii.eqb c "."%char && negb (String.eqb r "") && allExtensionChars r
  | EmptyString => false
  end.

(** [name.replace(/\.[^/.]+$/, "")]: the leftmost match, which reaches the
    end of the string, is removed. *)
Fixpoint stripExtension (s : string) : string :=
  if matchesExtension s then ""
  else match s with
       | EmptyString => ""
       | String c r => String c (stripExtension r)
       end.

(** [s.padStart(target, fill)] for a one-character [fill]. *)
Definition padStart (target : nat) (fill : Ascii.ascii) (s : string) : string :=
  String.string_of_list_ascii (replicate (target - String.length s) fill) +:+ s.

(** [String(index + 1).padStart(2, '0')], the ordinal shown in the clip
    list (line 563) and used in the file name (line 249). *)
Definition clipOrdinal (index : nat) : string :=
  padStart 2 "0"%char (pretty (index + 1)%nat).

(** The [download] attribute built by [exportRegion] (lines 248-249). *)
Definition downloadName (fileName : string) (index : nat) : string :=
  stripExtension fileName +:+ "_part_" +:+ clipOrdinal index +:+ ".wav".

(** ** [fileToBase64] *)

(** [result.split(',')] *)
Fixpoint splitComma (s : string) : list string :=
  match s with
  | EmptyString => [""]
  | String c r =>
      if Ascii.eqb c ","%char
      then "" :: splitComma r
      else match splitComma r with
           | piece :: pieces => String c piece :: pieces
           | [] => [String c ""]
           end
  end.

(** The value [fileToBase64] resolves with (lines 263-265):
    [result.split(',')[1]], [undefined] when there is no comma. *)
Definition base64OfDataUrl (result : string) : option string :=
  splitComma result !! 1%nat.

(** Whether the character [c] occurs in [s]. *)
Fixpoint occurs (c : Ascii.ascii) (s : string) : bool :=
  match s with
  | EmptyString => false
  | String d r => Ascii.eqb d c || occurs c r
  end.

(** What a region shows on the timeline: everything but the identity of
    the object. *)
Definition regionView (r : Region)
  : string * Q * Q * Content * string * bool * bool :=
  (id r, start r, end_ r, content r, color r, drag r, resize r).

(** ** Pointer events *)

(** The handler of a click on the waveform (lines 121-124); pausing the
    player changes none of the embedded fields. *)
Definition onWaveClick (s : Session) : Session := setActiveRegionId None s.

(** The handler of [region-clicked] (lines 138-143). *)
Definition onRegionClicked (region : Region) (s : Session) : Session :=
  if isTranscriptId (id region) then s
  else setActiveRegionId (Some (id region)) s.

Definition set_wavesurfer (w : option WaveSurfer) (s : Session) : Session :=
  mkSession w (regionsPluginRef s) (duration s) (userRegions s) (activeRegionId s)
            (isReady s) (isTranscribing s) (transcriptSegments s)
            (showTranscriptOnWave s) (requestsSent s) (callsPending s) (consoleErrors s).

(** [ws.setTime(t)]: the playback position becomes [t]. *)
Definition setTime (t : Q) (ws : WaveSurfer) : WaveSurfer :=
  {| ws_currentTime := t; ws_duration := ws_duration ws;
     ws_decodedData := ws_decodedData ws |}.

(** The handler of a click on an entry of the clip list (lines 549-555). *)
Definition onClipClick (region : RegionData) (s : Session) : Session :=
  let s1 := setActiveRegionId (Some (rd_id region)) s in
  match wavesurferRef s1 with
  | Some ws => set_wavesurfer (Some (setTime (rd_start region) ws)) s1
  | None => s1
  end.

(** ** The events of a session *)

(** A region object whose bounds the plugin has changed in place (the user
    dragged or resized it). *)
Definition Region_setBounds (rstart rend : Q) (r : Region) : Region :=
  {| oid := oid r; id := id r; start := rstart; end_ := rend;
     content := content r; color := color r; drag := drag r; resize := resize r |}.

Definition plugin_updateRegion (n : nat) (rstart rend : Q) (p : RegionsPlugin)
  : RegionsPlugin :=
  {| regions := (fun r => if (oid r =? n)%nat then Region_setBounds rstart rend r else r)
                  <$> regions p;
     nextOid := nextOid p |}.

(** What can happen to a mounted editor: the buttons and pointer gestures
    of the component, the events of the plugin and of the player that it
    listens to, a change of theme, and the resumptions of
    [handleTranscribe]. *)
Inductive Event : Type :=
| EvMark (rnd : string)
| EvDragSelect (rnd : string) (rstart rend : Q) (c : Content)
| EvPluginUpdate (n : nat) (rstart rend : Q)
| EvRemoveClip (k : nat)
| EvClickWave
| EvClickRegion (n : nat)
| EvClickClip (k : nat)
| EvToggleOverlay
| EvThemeChanged
| EvReady (ws : WaveSurfer)
| EvReadDone (ok : bool)
| EvReply (r : Reply).

(** The options of a region that the plugin creates on a drag over the
    waveform: the colour given to [enableDragSelection] (lines 94-98), no id,
    the plugin's defaults for the rest. *)
Definition dragSelectionParams (rstart rend : Q) (c : Content) : RegionParams :=
  {| p_id := None; p_start := rstart; p_end := rend; p_content := c;
     p_color := userRegionColor; p_drag := true; p_resize := true |}.

(** The handler that runs on an event; [env] holds the props at that time.
    A region the plugin creates on a drag is stored and announced like one
    the component asks for; a region the user moves or resizes, which the
    plugin allows when [drag] or [resize] is set, is changed in place and
    announced by [region-updated]; the trash button of the entry at
    position [k] of the clip list calls [removeRegion] with that entry's
    id (line 587). *)
Definition step (env : Env) (e : Event) (s : Session) : Session :=
  match e with
  | EvMark rnd => addRegion rnd s
  | EvDragSelect rnd rstart rend c =>
      match regionsPluginRef s with
      | Some p => pluginAddRegion rnd (dragSelectionParams rstart rend c) p s
      | None => s
      end
  | EvPluginUpdate n rstart rend =>
      match regionsPluginRef s with
      | Some p =>
          match List.find (fun r => (oid r =? n)%nat) (getRegions p) with
          | Some r =>
              if drag r || resize r
              then onRegionUpdated
                     (Region_setBounds rstart rend r)
                     (set_plugin (Some (plugin_updateRegion n rstart rend p)) s)
              else s
          | None => s
          end
      | None => s
      end
  | EvRemoveClip k =>
      match userRegions s !! k with
      | Some region => removeRegion (rd_id region) s
      | None => s
      end
  | EvClickWave => onWaveClick s
  | EvClickRegion n =>
      match List.find (fun r => (oid r =? n)%nat) (currentRegions s) with
      | Some r => onRegionClicked r s
      | None => s
      end
  | EvClickClip k =>
      match userRegions s !! k with
      | Some region => onClipClick region s
      | None => s
      end
  | EvToggleOverlay => toggleTranscriptOnWave env s
  | EvThemeChanged => renderTranscriptRegions env (transcriptSegments s) s
  | EvReady ws => onReady env ws s
  | EvReadDone ok => transcribeAfterRead ok s
  | EvReply r => transcribeAfterReply env r s
  end.

(** The session right after the component has mounted (lines 30-41 and
    64-101): the player and an empty plugin behind the refs, every state
    cell at its initial value. *)
Definition mountedSession (ws : WaveSurfer) : Session :=
  {| wavesurferRef := Some ws;
     regionsPluginRef := Some {| regions := []; nextOid := 0 |};
     duration := 0; userRegions := []; activeRegionId := None; isReady := false;
     isTranscribing := false; transcriptSegments := []; showTranscriptOnWave := true;
     requestsSent := 0; callsPending := 0; consoleErrors := [] |}.

(** The session after a sequence of events, each with the props of its
    time. *)
Definition run (trace : list (Env * Event)) (s : Session) : Session :=
  foldl (fun s '(env, e) => step env e s) s trace.

(** What holds of every session that events can produce. *)
Definition sessionInvariant (s : Session) : Prop :=
  wfSession s
  /\ userRegions s = formattedRegions (currentRegions s)
  /\ forall rid, activeRegionId s = Some rid -> isTranscriptId rid = false.





(** ** The [App] component *)

(** What the components use of a [File]. *)
Record File : Type := mkFile {
  file_name : string;
  file_type : string
}.

(** The state cells of [App] (lines 610-614) and the [dark] class of the
    document element, which its effect maintains. *)
Record AppState : Type := mkAppState {
  app_file : option File;
  app_isDarkMode : bool;
  app_enableTranscription : bool;
  darkClass : bool
}.

(** [App] after its first render and effect: no file, light theme,
    transcription off. *)
Definition initialApp : AppState :=
  {| app_file := None; app_isDarkMode := false;
     app_enableTranscription := false; darkClass := false |}.

(** The effect on [[isDarkMode]] (lines 617-623). *)
Definition themeEffect (st : AppState) : AppState :=
  {| app_file := app_file st; app_isDarkMode := app_isDarkMode st;
     app_enableTranscription := app_enableTranscription st;
     darkClass := app_isDarkMode st |}.

(** [toggleTheme] (lines 625-627), followed by the effect its state change
    schedules. *)
Definition toggleTheme (st : AppState) : AppState :=
  themeEffect
    {| app_file := app_file st; app_isDarkMode := negb (app_isDarkMode st);
       app_enableTranscription := app_enableTranscription st;
       darkClass := darkClass st |}.

(** [handleFileChange] (lines 629-633) on the files of the input. *)
Definition handleFileChange (files : list File) (st : AppState) : AppState :=
  match files with
  | f :: _ =>
      {| app_file := Some f; app_isDarkMode := app_isDarkMode st;
         app_enableTranscription := app_enableTranscription st;
         darkClass := darkClass st |}
  | [] => st
  end.

(** [handleCloseEditor] (lines 635-637). *)
Definition handleCloseEditor (st : AppState) : AppState :=
  {| app_file := None; app_isDarkMode := app_isDarkMode st;
     app_enableTranscription := app_enableTranscription st;
     darkClass := darkClass st |}.

(** The [onChange] of the transcription checkbox (line 701). *)
Definition setEnableTranscription (checked : bool) (st : AppState) : AppState :=
  {| app_file := app_file st; app_isDarkMode := app_isDarkMode st;
     app_enableTranscription := checked; darkClass := darkClass st |}.

Inductive AppEvent : Type :=
| AppToggleTheme
| AppFileChange (files : list File)
| AppCheckTranscription (checked : bool)
| AppCloseEditor.

(** Which controls the rendered tree holds (lines 652-659 and 663-724): the
    theme button always; the file input and the checkbox while no file is
    chosen; the editor, with its back button, once one is. *)
Definition offered (st : AppState) (e : AppEvent) : bool :=
  match e, app_file st with
  | AppToggleTheme, _ => true
  | AppFileChange _, None => true
  | AppCheckTranscription _, None => true
  | AppCloseEditor, Some _ => true
  | _, _ => false
  end.

Definition appStep (e : AppEvent) (st : AppState) : AppState :=
  if offered st e
  then match e with
       | AppToggleTheme => toggleTheme st
       | AppFileChange files => handleFileChange files st
       | AppCheckTranscription checked => setEnableTranscription checked st
       | AppCloseEditor => handleCloseEditor st
       end
  else st.

Definition appRun (events : list AppEvent) (st : AppState) : AppState :=
  foldl (fun st e => appStep e st) st events.

(** The props the editor is rendered with (lines 718-723) and the build
    environment. *)
Definition editorEnv (apiKey : option string) (st : AppState) : Env :=
  {| isDarkMode := app_isDarkMode st;
     enableTranscription := app_enableTranscription st;
     API_KEY := apiKey |}.

(** ** The transcription indicator *)




(** * Properties *)

(** ** The stable sort *)

Section SortByKey.
Context {A : Type} (key : A -> Q).

Let cmp : A -> A -> Q := fun a b => key a - key b.
Let le : A -> A -> Prop := fun a b => key a <= key b.

Lemma cmp_le (x y : A) : Qle_bool (cmp x y) 0 = true <-> key x <= key y.
Proof.
  unfold cmp. rewrite Qle_bool_iff. split; intros H; lra.
Qed.

Lemma cmp_gt (x y : A) : Qle_bool (cmp x y) 0 = false -> key y < key x.
Proof.
  intros H. apply Qnot_le_lt. intros Hle.
  apply cmp_le in Hle. congruence.
Qed.

Lemma sortInsert_perm (x : A) (l : list A) : sortInsert cmp x l ≡ₚ x :: l.
Proof.
  induction l as [|y l IH]; simpl; [done|].
  destruct (Qle_bool (cmp x y) 0); [done|].
  rewrite IH. apply perm_swap.
Qed.

Lemma arraySort_perm (l : list A) : arraySort cmp l ≡ₚ l.
Proof.
  induction l as [|x l IH]; simpl; [done|].
  rewrite sortInsert_perm. by rewrite IH.
Qed.

Lemma sortInsert_sorted (x : A) (l : list A) :
  StronglySorted le l -> StronglySorted le (sortInsert cmp x l).
Proof.
  induction 1 as [|y l Hs IH Hy]; simpl.
  - repeat constructor.
  - destruct (Qle_bool (cmp x y) 0) eqn:E.
    + apply cmp_le in E. constructor; [by constructor|].
      constructor; [exact E|].
      eapply Forall_impl; [exact Hy|].
      intros z Hz. unfold le in *. by eapply Qle_trans.
    + apply cmp_gt in E. constructor; [exact IH|].
      rewrite sortInsert_perm. constructor; [|exact Hy].
      by apply Qlt_le_weak.
Qed.

Lemma arraySort_sorted (l : list A) : StronglySorted le (arraySort cmp l).
Proof.
  induction l as [|x l IH]; simpl; [constructor|].
  by apply sortInsert_sorted.
Qed.

(** Elements with the same key keep their relative order: inserting [x]
    puts it in front of the elements of its own key. *)
Lemma sortInsert_filter_key (t : Q) (x : A) (l : list A) :
  filter (fun a => key a == t) (sortInsert cmp x l)
  = filter (fun a => key a == t) (x :: l).
Proof.
  induction l as [|y l IH]; simpl; [done|].
  destruct (Qle_bool (cmp x y) 0) eqn:E; [done|].
  apply cmp_gt in E.
  rewrite filter_cons, IH, !filter_cons.
  destruct (decide (key y == t)) as [Hy|Hy]; [|done].
  destruct (decide (key x == t)) as [Hx|Hx]; [|done].
  exfalso. rewrite Hy, Hx in E. by apply Qlt_irrefl in E.
Qed.

Lemma arraySort_stable (t : Q) (l : list A) :
  filter (fun a => key a == t) (arraySort cmp l) = filter (fun a => key a == t) l.
Proof.
  induction l as [|x l IH]; simpl; [done|].
  rewrite sortInsert_filter_key, !filter_cons, IH. done.
Qed.
End SortByKey.

(** C3. [listUserRegions] (the list [updateUserRegionsList] stores) holds
    exactly the user regions of the plugin, sorted ascending by start time,
    and regions with equal start times come in the order in which the
    plugin holds them, which is their insertion order. *)
Theorem updateUserRegionsList_sorted_stable (wsRegions : list Region) (s : Session) :
  let listed := userRegions (updateUserRegionsList wsRegions s) in
  StronglySorted (fun a b => rd_start a <= rd_start b) listed
  /\ listed ≡ₚ toRegionData <$> filter isUserRegion wsRegions
  /\ forall t : Q,
       filter (fun d => rd_start d == t) listed
       = toRegionData <$> filter (fun r => start r == t) (filter isUserRegion wsRegions).
Proof.
  simpl. unfold formattedRegions.
  change (fun r => Is_true (negb (isTranscriptId (id r))))
    with (fun r => Is_true (isUserRegion r)).
  set (us := filter isUserRegion wsRegions).
  split; [|split].
  - pose proof (arraySort_sorted start us) as Hs.
    induction Hs as [|r l Hs IH Hr]; [constructor|].
    rewrite fmap_cons. constructor; [exact IH|].
    apply Forall_fmap. eapply Forall_impl; [exact Hr|]. done.
  - apply fmap_Permutation, arraySort_perm.
  - intros t. rewrite <- (arraySort_stable start t us).
    generalize (arraySort (fun a b => start a - start b) us) as l.
    induction l as [|r l IH]; [done|].
    rewrite fmap_cons, !filter_cons. simpl.
    destruct (decide (start r == t)); by rewrite IH.
Qed.

(** ** The slicer *)

Lemma copyFrames_spec (src : list sample) (startFrame : Z) (n j : nat) (dst : list sample) :
  (j + n <= length dst)%nat ->
  copyFrames src startFrame j n dst
  = take j dst
    ++ ((fun k => toFloat32 (readSample src (startFrame + Z.of_nat k))) <$> seq j n)
    ++ drop (j + n) dst.
Proof.
  revert j dst. induction n as [|n IH]; intros j dst Hlen; simpl.
  - rewrite Nat.add_0_r. by rewrite take_drop.
  - rewrite IH by (rewrite length_insert; lia).
    rewrite drop_insert_lt by lia.
    replace (S j + n)%nat with (j + S n)%nat by lia.
    rewrite (take_S_r _ j (toFloat32 (readSample src (startFrame + Z.of_nat j))))
      by (apply list_lookup_insert_eq; lia).
    rewrite take_insert_ge by lia.
    by rewrite <- app_assoc.
Qed.

Lemma copyFrames_full (src : list sample) (startFrame : Z) (dst : list sample) :
  copyFrames src startFrame 0 (length dst) dst = copied src startFrame (length dst).
Proof.
  rewrite copyFrames_spec by lia. simpl.
  rewrite drop_all. by rewrite app_nil_r.
Qed.

Lemma copyChannels_spec (buffer : AudioBuffer) (startFrame : Z) (frameCount : nat)
      (n i : nat) (nb : AudioBuffer) :
  (i + n <= length (channelData nb))%nat ->
  Forall (fun c => length c = frameCount) (channelData nb) ->
  copyChannels buffer startFrame frameCount i n nb
  = {| sampleRate := sampleRate nb; bufLength := bufLength nb;
       channelData :=
         take i (channelData nb)
         ++ ((fun k => copied (getChannelData buffer k) startFrame frameCount) <$> seq i n)
         ++ drop (i + n) (channelData nb) |}.
Proof.
  revert i nb. induction n as [|n IH]; intros i nb Hlen Hall; simpl.
  - rewrite Nat.add_0_r, take_drop. by destruct nb.
  - assert (Hi : is_Some (channelData nb !! i)) by (apply lookup_lt_is_Some; lia).
    destruct Hi as [c Hc].
    assert (Hcl : length c = frameCount)
      by (eapply Forall_forall in Hall; [exact Hall|by eapply list_elem_of_lookup_2]).
    unfold getChannelData at 2. rewrite Hc.
    replace (copyFrames (getChannelData buffer i) startFrame 0 frameCount c)
      with (copied (getChannelData buffer i) startFrame frameCount)
      by (subst frameCount; symmetry; apply copyFrames_full).
    rewrite IH; simpl.
    + f_equal.
      rewrite drop_insert_lt by lia.
      rewrite (take_S_r _ i (copied (getChannelData buffer i) startFrame frameCount))
        by (apply list_lookup_insert_eq; lia).
      rewrite take_insert_ge by lia.
      rewrite <- app_assoc. simpl.
      by replace (i + S n)%nat with (S (i + n)) by lia.
    + rewrite length_insert. lia.
    + apply Forall_insert; [exact Hall|].
      unfold copied. by rewrite length_fmap, length_seq.
Qed.

Lemma getChannelData_seq (b : AudioBuffer) (f : list sample -> list sample) :
  (fun k => f (getChannelData b k)) <$> seq 0 (length (channelData b))
  = f <$> channelData b.
Proof.
  unfold getChannelData. generalize (channelData b) as l.
  induction l as [|c l IH] using rev_ind; [done|].
  rewrite length_app. simpl length.
  replace (length l + 1)%nat with (S (length l)) by lia.
  rewrite seq_S, !fmap_app. simpl. f_equal.
  - rewrite <- IH. apply list_fmap_ext. intros i k Hk.
    apply lookup_seq in Hk as [-> Hk]. simpl.
    by rewrite lookup_app_l by lia.
  - by rewrite list_lookup_middle.
Qed.

(** The slicer in closed form: each channel of the new buffer is the copy
    loop's image of the same channel of the source. *)
Lemma sliceRegion_eq (buffer : AudioBuffer) (rstart rend : Q) :
  sliceRegion buffer rstart rend
  = let startFrame := toFrame rstart (sampleRate buffer) in
    let frameCount := (toFrame rend (sampleRate buffer) - startFrame)%Z in
    if (frameCount <=? 0)%Z then None
    else Some {| sampleRate := sampleRate buffer;
                 bufLength := Z.to_nat frameCount;
                 channelData :=
                   (fun c => copied c startFrame (Z.to_nat frameCount))
                     <$> channelData buffer |}.
Proof.
  unfold sliceRegion. simpl.
  destruct (_ <=? 0)%Z; [done|]. f_equal.
  rewrite copyChannels_spec; simpl.
  - f_equal. rewrite drop_ge, app_nil_r by (by rewrite length_replicate).
    unfold numberOfChannels.
    apply (getChannelData_seq buffer (fun c => copied c _ _)).
  - rewrite length_replicate. unfold numberOfChannels. lia.
  - apply Forall_replicate. by rewrite length_replicate.
Qed.











(** ** The regions plugin *)

Lemma transcriptId_isTranscriptId (idx : nat) : isTranscriptId (transcriptId idx) = true.
Proof. unfold isTranscriptId, transcriptId. simpl. by destruct (pretty idx). Qed.


Lemma filter_ext_in {A : Type} (P Q : A -> Prop)
      `{!forall x, Decision (P x), !forall x, Decision (Q x)} (l : list A) :
  (forall x, x ∈ l -> P x <-> Q x) -> filter P l = filter Q l.
Proof.
  induction l as [|x l IH]; intros Hext; [done|].
  rewrite !filter_cons.
  rewrite IH by (intros y Hy; apply Hext; by right).
  destruct (decide (P x)) as [HP|HP], (decide (Q x)) as [HQ|HQ]; try done.
  - exfalso. apply HQ, Hext; [by left|done].
  - exfalso. apply HP, Hext; [by left|done].
Qed.

Lemma filter_all {A : Type} (P : A -> Prop) `{!forall x, Decision (P x)} (l : list A) :
  (forall x, P x) -> filter P l = l.
Proof.
  intros HP. induction l as [|x l IH]; [done|].
  by rewrite filter_cons_True, IH.
Qed.

Lemma oid_inj_in (l : list Region) (x y : Region) :
  NoDup (oid <$> l) -> x ∈ l -> y ∈ l -> oid x = oid y -> x = y.
Proof.
  induction l as [|z l IH]; simpl; intros Hnd Hx Hy Heq; [by inversion Hx|].
  apply NoDup_cons in Hnd as [Hz Hnd].
  apply elem_of_cons in Hx as [->|Hx], Hy as [->|Hy]; try done.
  - exfalso. apply Hz. rewrite Heq. by apply list_elem_of_fmap_2.
  - exfalso. apply Hz. rewrite <- Heq. by apply list_elem_of_fmap_2.
  - by apply IH.
Qed.

(** The removal loop drops from the live list every object that is a
    transcript region of the array it walks. *)
Lemma removeLoop_regions (l cur : list Region) (n : nat) :
  regions (foldl (fun q r => if isTranscriptId (id r) then Region_remove r q else q)
                 (mkPlugin cur n) l)
  = filter (fun x => oid x ∉ oid <$> filter isTranscriptRegion l) cur
  /\ nextOid (foldl (fun q r => if isTranscriptId (id r) then Region_remove r q else q)
                    (mkPlugin cur n) l) = n.
Proof.
  revert cur. induction l as [|r l IH]; intros cur.
  - simpl. split; [|done]. rewrite filter_all; [done|].
    intros x Hin. by inversion Hin.
  - destruct (isTranscriptId (id r)) eqn:E.
    + rewrite filter_cons_True by (unfold isTranscriptRegion; by rewrite E).
      simpl foldl. rewrite E.
      change (Region_remove r (mkPlugin cur n))
        with (mkPlugin (filter (fun x => negb (oid x =? oid r)%nat) cur) n).
      destruct (IH (filter (fun x => negb (oid x =? oid r)%nat) cur)) as [-> ->].
      split; [|done]. rewrite list_filter_filter.
      apply list_filter_iff. intros x.
      rewrite fmap_cons, not_elem_of_cons.
      destruct (Nat.eqb_spec (oid x) (oid r)); simpl; tauto.
    + rewrite filter_cons_False by (unfold isTranscriptRegion; rewrite E; intros []).
      simpl foldl. rewrite E. apply IH.
Qed.

Lemma removeTranscriptRegions_eq (p : RegionsPlugin) :
  NoDup (oid <$> regions p) ->
  removeTranscriptRegions p
  = {| regions := filter isUserRegion (regions p); nextOid := nextOid p |}.
Proof.
  intros Hnd. unfold removeTranscriptRegions, getRegions.
  destruct p as [l n]. simpl in *.
  destruct (removeLoop_regions l l n) as [H1 H2].
  destruct (foldl _ _ _) as [l' n']. simpl in *. subst. f_equal.
  apply filter_ext_in. intros x Hx. unfold isUserRegion.
  split.
  - intros Hno. destruct (isTranscriptId (id x)) eqn:E; [|done].
    exfalso. apply Hno. apply list_elem_of_fmap_2.
    apply list_elem_of_filter. split; [|done]. unfold isTranscriptRegion. by rewrite E.
  - intros Hu Hin. apply list_elem_of_fmap_1 in Hin as (y & Hoid & Hy).
    apply list_elem_of_filter in Hy as [Hty Hy].
    assert (x = y) by (by eapply oid_inj_in). subst y.
    unfold isTranscriptRegion in Hty. destruct (isTranscriptId (id x)); done.
Qed.

Lemma newRegion_transcript_id (env : Env) (seg : TranscriptSegment) (idx n : nat) :
  id (newRegion "" (transcriptParams env seg idx) n) = transcriptId idx.
Proof. reflexivity. Qed.

Lemma set_plugin_set_plugin (p q : option RegionsPlugin) (s : Session) :
  set_plugin p (set_plugin q s) = set_plugin p s.
Proof. reflexivity. Qed.

Lemma set_plugin_same (s : Session) (p : RegionsPlugin) :
  regionsPluginRef s = Some p -> set_plugin (Some p) s = s.
Proof. destruct s. simpl. by intros ->. Qed.

Lemma pluginAddRegion_transcript (env : Env) (seg : TranscriptSegment) (idx : nat)
      (p : RegionsPlugin) (s : Session) :
  pluginAddRegion "" (transcriptParams env seg idx) p s
  = set_plugin
      (Some {| regions := regions p
                          ++ [newRegion "" (transcriptParams env seg idx) (nextOid p)];
               nextOid := S (nextOid p) |}) s.
Proof.
  unfold pluginAddRegion, plugin_addRegion, onRegionCreated.
  rewrite newRegion_transcript_id, transcriptId_isTranscriptId. done.
Qed.

Lemma addTranscriptRegions_eq (env : Env) (segments : list TranscriptSegment)
      (idx : nat) (s : Session) (p : RegionsPlugin) :
  regionsPluginRef s = Some p ->
  addTranscriptRegions env segments idx s
  = set_plugin
      (Some {| regions := regions p ++ transcriptRegionsOf env segments idx (nextOid p);
               nextOid := nextOid p + length segments |}) s.
Proof.
  revert idx s p. induction segments as [|seg rest IH]; intros idx s p Hp; simpl.
  - unfold transcriptRegionsOf. simpl. rewrite app_nil_r, Nat.add_0_r.
    symmetry. destruct p. by apply set_plugin_same.
  - rewrite Hp, pluginAddRegion_transcript.
    erewrite IH by reflexivity. rewrite set_plugin_set_plugin. simpl.
    do 3 f_equal; [|lia].
    rewrite <- app_assoc. f_equal. unfold transcriptRegionsOf. simpl.
    rewrite !Nat.add_0_r. f_equal.
    apply imap_ext. intros i x _. simpl. f_equal; [f_equal|]; lia.
Qed.

Lemma renderTranscriptRegions_eq (env : Env) (segments : list TranscriptSegment)
      (s : Session) (p : RegionsPlugin) :
  regionsPluginRef s = Some p ->
  NoDup (oid <$> regions p) ->
  renderTranscriptRegions env segments s
  = set_plugin
      (Some (if showTranscriptOnWave s
             then {| regions := filter isUserRegion (regions p)
                                ++ transcriptRegionsOf env segments 0 (nextOid p);
                     nextOid := nextOid p + length segments |}
             else {| regions := filter isUserRegion (regions p);
                     nextOid := nextOid p |})) s.
Proof.
  intros Hp Hnd. unfold renderTranscriptRegions. rewrite Hp.
  rewrite removeTranscriptRegions_eq by exact Hnd. simpl.
  destruct (showTranscriptOnWave s); simpl; [|done].
  erewrite addTranscriptRegions_eq by reflexivity.
  by rewrite set_plugin_set_plugin.
Qed.

Lemma transcriptRegionsOf_all_transcript (env : Env) (segments : list TranscriptSegment)
      (idx n : nat) :
  Forall (fun r => isTranscriptRegion r) (transcriptRegionsOf env segments idx n).
Proof.
  apply Forall_forall. intros r Hr. unfold transcriptRegionsOf in Hr.
  apply list_elem_of_lookup in Hr as [i Hi].
  apply list_lookup_imap_Some in Hi as (seg & _ & ->).
  unfold isTranscriptRegion.
  by rewrite newRegion_transcript_id, transcriptId_isTranscriptId.
Qed.

Lemma filter_user_transcript (l : list Region) :
  Forall (fun r => isTranscriptRegion r) l -> filter isUserRegion l = [].
Proof.
  induction 1 as [|r l Hr _ IH]; [done|].
  rewrite filter_cons_False; [done|].
  unfold isUserRegion, isTranscriptRegion in *.
  destruct (isTranscriptId (id r)); simpl in *; tauto.
Qed.


Lemma filter_transcript_user (l : list Region) :
  filter isTranscriptRegion (filter isUserRegion l) = [].
Proof.
  induction l as [|r l IH]; [done|].
  rewrite filter_cons. destruct (decide (isUserRegion r)) as [Hu|Hu]; [|done].
  rewrite filter_cons_False; [done|].
  unfold isUserRegion, isTranscriptRegion in *.
  destruct (isTranscriptId (id r)); simpl in *; tauto.
Qed.

Lemma filter_user_user (l : list Region) :
  filter isUserRegion (filter isUserRegion l) = filter isUserRegion l.
Proof. rewrite list_filter_filter. apply list_filter_iff. tauto. Qed.

(** C6. Replacing the transcript regions takes away only transcript regions:
    the user regions of the plugin are afterwards the same objects in the
    same order, and neither the clip list nor the active region changes. *)
Theorem renderTranscriptRegions_keeps_user_regions
        (env : Env) (segments : list TranscriptSegment) (s : Session) :
  wfSession s ->
  let s' := renderTranscriptRegions env segments s in
  filter isUserRegion (currentRegions s') = filter isUserRegion (currentRegions s)
  /\ (forall r, r ∈ currentRegions s -> r ∉ currentRegions s' -> isTranscriptRegion r)
  /\ userRegions s' = userRegions s
  /\ activeRegionId s' = activeRegionId s.
Proof.
  intros Hwf. simpl.
  assert (Hfilter : filter isUserRegion
                      (currentRegions (renderTranscriptRegions env segments s))
                    = filter isUserRegion (currentRegions s)
                    /\ userRegions (renderTranscriptRegions env segments s) = userRegions s
                    /\ activeRegionId (renderTranscriptRegions env segments s)
                       = activeRegionId s).
  { unfold wfSession in Hwf. destruct (regionsPluginRef s) as [p|] eqn:Hp.
    - destruct Hwf as [Hnd _].
      rewrite (renderTranscriptRegions_eq env segments s p Hp Hnd).
      unfold currentRegions at 1 2. rewrite Hp. simpl. unfold getRegions.
      split; [|done].
      destruct (showTranscriptOnWave s); simpl.
      + rewrite filter_app, filter_user_user.
        rewrite (filter_user_transcript (transcriptRegionsOf env segments 0 (nextOid p)))
          by apply transcriptRegionsOf_all_transcript.
        by rewrite app_nil_r.
      + apply filter_user_user.
    - unfold renderTranscriptRegions. by rewrite Hp. }
  destruct Hfilter as (Hf & Hu & Ha). split; [exact Hf|]. split; [|done].
  intros r Hin Hout. unfold isTranscriptRegion.
  destruct (isTranscriptId (id r)) eqn:E; [done|].
  exfalso. apply Hout.
  assert (Hr : r ∈ filter isUserRegion (currentRegions s)).
  { apply list_elem_of_filter. split; [|exact Hin]. unfold isUserRegion. by rewrite E. }
  rewrite <- Hf in Hr. by apply list_elem_of_filter in Hr as [_ Hr].
Qed.

(** A store with one clip and the overlay of an earlier transcript: the
    replace leaves the clip where it was. *)
Lemma renderTranscriptRegions_keeps_user_regions_witness :
  let s := renderTranscriptRegions demoEnv demoSegments (addRegion "abc" demoSession) in
  let s' := renderTranscriptRegions demoEnv [] s in
  filter isUserRegion (currentRegions s') = filter isUserRegion (currentRegions s)
  /\ (forall r, r ∈ currentRegions s -> r ∉ currentRegions s' -> isTranscriptRegion r)
  /\ userRegions s' = userRegions s
  /\ activeRegionId s' = activeRegionId s.
Proof.
  apply (renderTranscriptRegions_keeps_user_regions demoEnv []
           (renderTranscriptRegions demoEnv demoSegments (addRegion "abc" demoSession))).
  vm_compute. split.
  - apply (bool_decide_unpack _). exact I.
  - repeat (constructor; [lia|]). constructor.
Defined.




(** ** Removing and adding a clip *)

Lemma find_split {A : Type} (f : A -> bool) (l : list A) (r : A) :
  List.find f l = Some r ->
  f r = true
  /\ exists l1 l2, l = l1 ++ r :: l2 /\ Forall (fun x => f x = false) l1.
Proof.
  induction l as [|x l IH]; simpl; [done|].
  destruct (f x) eqn:E.
  - intros [= ->]. split; [done|]. by exists [], l.
  - intros Hfind. destruct (IH Hfind) as (Hr & l1 & l2 & -> & Hall).
    split; [done|]. exists (x :: l1), l2. split; [done|]. by constructor.
Qed.

Lemma find_none_all {A : Type} (f : A -> bool) (l : list A) :
  List.find f l = None -> Forall (fun x => f x = false) l.
Proof.
  induction l as [|x l IH]; simpl; [constructor|].
  destruct (f x) eqn:E; [done|]. intros Hfind. constructor; auto.
Qed.

Lemma filter_other_oids (l : list Region) (n : nat) :
  n ∉ oid <$> l -> filter (fun x => negb (oid x =? n)%nat) l = l.
Proof.
  induction l as [|x l IH]; [done|].
  rewrite fmap_cons, not_elem_of_cons. intros [Hx Hl].
  rewrite filter_cons_True, IH; [done|done|].
  destruct (Nat.eqb_spec (oid x) n); [congruence|done].
Qed.

(** [region.remove()] takes exactly that object out of the list. *)
Lemma Region_remove_split (l1 l2 : list Region) (r : Region) (n : nat) :
  NoDup (oid <$> (l1 ++ r :: l2)) ->
  regions (Region_remove r {| regions := l1 ++ r :: l2; nextOid := n |}) = l1 ++ l2.
Proof.
  rewrite fmap_app, fmap_cons. intros Hnd.
  apply NoDup_app in Hnd as (_ & Hl1 & Hnd).
  apply NoDup_cons in Hnd as [Hl2 _].
  unfold Region_remove. simpl. rewrite filter_app, filter_cons_False.
  - rewrite !filter_other_oids; [done|exact Hl2|].
    intros Hin. apply (Hl1 _ Hin). by left.
  - rewrite Nat.eqb_refl. intros [].
Qed.

(** C7, as the code has it. [removeRegion] raises no error and never
    touches [activeRegionId]. For an id that no region of the plugin
    carries, the plugin is left as it was; for an id that is present, the
    first region carrying it, and only that one, leaves the plugin. In both
    cases the clip list is recomputed from the plugin. *)
Theorem removeRegion_effect (rid : string) (s : Session) :
  wfSession s ->
  let s' := removeRegion rid s in
  activeRegionId s' = activeRegionId s
  /\ consoleErrors s' = consoleErrors s
  /\ userRegions s' = formattedRegions (currentRegions s')
  /\ match findRegion rid s with
     | None =>
         Forall (fun x => id x <> rid) (currentRegions s)
         /\ regionsPluginRef s' = regionsPluginRef s
     | Some r =>
         id r = rid
         /\ exists l1 l2,
             currentRegions s = l1 ++ r :: l2
             /\ Forall (fun x => id x <> rid) l1
             /\ currentRegions s' = l1 ++ l2
     end.
Proof.
  intros Hwf. unfold removeRegion, findRegion, wfSession, currentRegions in *.
  destruct (regionsPluginRef s) as [[l n]|] eqn:Hp; simpl.
  - unfold getRegions in *. simpl in *.
    destruct (List.find _ l) as [r|] eqn:Hfind; simpl.
    + repeat split.
      * apply find_split in Hfind as [Hr _]. by apply String.eqb_eq in Hr.
      * apply find_split in Hfind as (_ & l1 & l2 & -> & Hall).
        exists l1, l2. split; [done|]. split.
        -- eapply Forall_impl; [exact Hall|]. simpl. intros x Hx Heq.
           by rewrite Heq, String.eqb_refl in Hx.
        -- destruct Hwf as [Hnd _]. by apply (Region_remove_split l1 l2 r n).
    + rewrite Hp. simpl. repeat split.
      apply find_none_all in Hfind.
      eapply Forall_impl; [exact Hfind|]. simpl. intros x Hx Heq.
      by rewrite Heq, String.eqb_refl in Hx.
  - rewrite Hp. simpl. repeat split. constructor.
Qed.

Lemma removeRegion_effect_witness :
  wfSession demoClipSession
  /\ activeRegionId (removeRegion "region-abc" demoClipSession)
     = activeRegionId demoClipSession.
Proof.
  assert (Hwf : wfSession demoClipSession).
  { split; [apply (bool_decide_unpack _); exact I|].
    repeat (constructor; [vm_compute; lia|]). constructor. }
  split; [exact Hwf|].
  exact (proj1 (removeRegion_effect "region-abc" demoClipSession Hwf)).
Defined.

(** C7, as the specification words it, fails: removing the active region
    leaves [activeRegionId] pointing at the removed clip. *)
Lemma removeRegion_active_counterexample :
  activeRegionId demoClipSession = Some "region-abc"
  /\ (exists r, findRegion "region-abc" demoClipSession = Some r)
  /\ currentRegions (removeRegion "region-abc" demoClipSession) = []
  /\ activeRegionId (removeRegion "region-abc" demoClipSession) = Some "region-abc"
  /\ activeRegionId (removeRegion "region-abc" demoClipSession) <> None.
Proof.
  split; [reflexivity|]. split; [eexists; reflexivity|].
  split; [reflexivity|]. split; [reflexivity|]. discriminate.
Qed.



(** ** Transcription *)



(** C10. Without an API key in the environment, triggering transcription
    returns at once and changes nothing; the decode-ready handler then only
    records readiness and the duration: no call is started, no request is
    sent, the in-flight flag, the transcript, the plugin and the error log
    are as before. *)
Theorem handleTranscribe_without_key (env : Env) (ws : WaveSurfer) (s : Session) :
  noApiKey env = true ->
  handleTranscribe env s = s
  /\ onReady env ws s = setDuration (ws_duration ws) (setIsReady true s)
  /\ isTranscribing (onReady env ws s) = isTranscribing s
  /\ callsPending (onReady env ws s) = callsPending s
  /\ requestsSent (onReady env ws s) = requestsSent s
  /\ transcriptSegments (onReady env ws s) = transcriptSegments s
  /\ regionsPluginRef (onReady env ws s) = regionsPluginRef s
  /\ consoleErrors (onReady env ws s) = consoleErrors s.
Proof.
  intros Hkey. unfold onReady, handleTranscribe. rewrite Hkey. simpl.
  destruct (enableTranscription env); done.
Qed.

Lemma handleTranscribe_without_key_witness :
  handleTranscribe demoNoKeyEnv demoSession = demoSession
  /\ isTranscribing (onReady demoNoKeyEnv demoPlayer demoSession) = false
  /\ requestsSent (onReady demoNoKeyEnv demoPlayer demoSession) = 0%nat.
Proof.
  destruct (handleTranscribe_without_key demoNoKeyEnv demoPlayer demoSession eq_refl)
    as (H1 & _ & H2 & _ & H3 & _).
  split; [exact H1|]. split; [exact H2|exact H3].
Defined.

(** Replacing the transcript regions changes the plugin and nothing else. *)
Lemma addTranscriptRegions_frame (env : Env) (segments : list TranscriptSegment)
      (idx : nat) (s : Session) :
  exists q, addTranscriptRegions env segments idx s = set_plugin q s.
Proof.
  revert idx s. induction segments as [|seg rest IH]; intros idx s; simpl.
  - exists (regionsPluginRef s). by destruct s.
  - destruct (regionsPluginRef s) as [p|]; [|apply IH].
    rewrite pluginAddRegion_transcript.
    destruct (IH (S idx) (set_plugin
                            (Some {| regions := regions p
                                       ++ [newRegion "" (transcriptParams env seg idx)
                                                     (nextOid p)];
                                     nextOid := S (nextOid p) |}) s)) as [q ->].
    by exists q.
Qed.

Lemma renderTranscriptRegions_frame (env : Env) (segments : list TranscriptSegment)
      (s : Session) :
  exists q, renderTranscriptRegions env segments s = set_plugin q s.
Proof.
  unfold renderTranscriptRegions.
  destruct (regionsPluginRef s) as [p|] eqn:Hp.
  - simpl. destruct (showTranscriptOnWave s); simpl.
    + destruct (addTranscriptRegions_frame env segments 0
                  (set_plugin (Some (removeTranscriptRegions p)) s)) as [q ->].
      by exists q.
    + by eexists.
  - exists None. destruct s. simpl in *. by subst.
Qed.

(** X16. A call that passes the guard raises the flag and is suspended;
    it sends one request once the file is read, and however the request
    ends, the [finally] block lowers the flag again and the call is over. *)
Lemma transcribe_call_completes (env : Env) (r : Reply) (s : Session) :
  noApiKey env = false ->
  isTranscribing s = false ->
  let s1 := handleTranscribe env s in
  let s2 := transcribeAfterReply env r (transcribeAfterRead true s1) in
  isTranscribing s1 = true
  /\ callsPending s1 = S (callsPending s)
  /\ requestsSent s1 = requestsSent s
  /\ isTranscribing s2 = false
  /\ callsPending s2 = callsPending s
  /\ requestsSent s2 = S (requestsSent s).
Proof.
  intros Hkey Hflag. unfold handleTranscribe. rewrite Hkey, Hflag. simpl.
  do 3 (split; [done|]).
  destruct r as [| |parsed]; simpl; try done.
  match goal with
  | |- context [renderTranscriptRegions env parsed ?t] =>
      destruct (renderTranscriptRegions_frame env parsed t) as [q ->]
  end.
  done.
Qed.


(** ** The WAV encoder *)

Lemma length_flat_map_const {A B : Type} (f : A -> list B) (k : nat) (l : list A) :
  (forall x, length (f x) = k) -> length (flat_map f l) = (length l * k)%nat.
Proof.
  intros Hf. induction l as [|x l IH]; simpl; [done|].
  rewrite length_app, Hf, IH. lia.
Qed.

Lemma length_wavHeader (sr : Z) (nch frames : nat) :
  length (wavHeader sr nch frames) = wavHeaderSize.
Proof. reflexivity. Qed.

Lemma length_wavData (toInt16 : sample -> Z) (b : AudioBuffer) :
  length (wavData toInt16 b) = (bufLength b * numberOfChannels b * 2)%nat.
Proof.
  unfold wavData.
  rewrite (length_flat_map_const _ (numberOfChannels b * 2)).
  - rewrite length_seq. lia.
  - intros i. by rewrite (length_flat_map_const _ 2).
Qed.

Lemma wavData_no_channels (toInt16 : sample -> Z) (sr : Z) (n : nat) :
  wavData toInt16 {| sampleRate := sr; bufLength := n; channelData := [] |} = [].
Proof.
  unfold wavData. simpl. induction (seq 0 n) as [|i l IH]; simpl; done.
Qed.

Lemma Qfloor_eq (x y : Q) : x == y -> Qfloor x = Qfloor y.
Proof. intros H. by rewrite H. Qed.

(** C5. The encoder's output is determined by the sample rate and the
    channels' samples; it is the 44-byte header followed by
    [frameCount * channelCount * 2] bytes of sample data. Exporting the
    region (2.0, 5.0) of a 44100 Hz source gives the header followed by
    [3 * 44100 * channelCount * 2] bytes. *)
Theorem audioBufferToWav_size (toInt16 : sample -> Z) :
  (forall b : AudioBuffer,
      length (audioBufferToWav toInt16 b)
      = (wavHeaderSize + bufLength b * numberOfChannels b * 2)%nat
      /\ take wavHeaderSize (audioBufferToWav toInt16 b)
         = wavHeader (sampleRate b) (numberOfChannels b) (bufLength b)
      /\ drop wavHeaderSize (audioBufferToWav toInt16 b) = wavData toInt16 b
      /\ length (wavData toInt16 b) = (bufLength b * numberOfChannels b * 2)%nat)
  /\ (forall b1 b2 : AudioBuffer,
         wfBuffer b1 -> wfBuffer b2 ->
         sampleRate b1 = sampleRate b2 ->
         channelData b1 = channelData b2 ->
         audioBufferToWav toInt16 b1 = audioBufferToWav toInt16 b2)
  /\ (forall (s : Session) (rid : string) (ws : WaveSurfer) (buffer : AudioBuffer)
             (region : Region),
         wavesurferRef s = Some ws ->
         ws_decodedData ws = Some buffer ->
         findRegion rid s = Some region ->
         sampleRate buffer = 44100%Z ->
         start region == 2 ->
         end_ region == 5 ->
         exists bytes : list Z,
           exportRegion toInt16 rid s = Some bytes
           /\ Z.of_nat (length bytes)
              = (Z.of_nat wavHeaderSize
                 + 3 * 44100 * Z.of_nat (numberOfChannels buffer) * 2)%Z).
Proof.
  split; [|split].
  - intros b. unfold audioBufferToWav.
    rewrite length_app, length_wavHeader, length_wavData.
    rewrite take_app_length' by reflexivity.
    rewrite drop_app_length' by reflexivity. done.
  - intros [sr1 n1 ch1] [sr2 n2 ch2] Hwf1 Hwf2. simpl. intros <- <-.
    unfold wfBuffer in *. simpl in *.
    destruct ch1 as [|c ch1].
    + unfold audioBufferToWav. rewrite !wavData_no_channels.
      unfold wavHeader, numberOfChannels. simpl.
      by rewrite !Z.mul_0_r.
    + apply Forall_cons in Hwf1 as [<- _]. by apply Forall_cons in Hwf2 as [<- _].
  - intros s rid ws buffer region Hws Hbuf Hfind Hsr Hs He.
    unfold exportRegion. rewrite Hws, Hfind, Hbuf, sliceRegion_eq. simpl.
    unfold toFrame. rewrite Hsr.
    rewrite (Qfloor_eq (start region * inject_Z 44100) (2 * inject_Z 44100))
      by (by rewrite Hs).
    rewrite (Qfloor_eq (end_ region * inject_Z 44100) (5 * inject_Z 44100))
      by (by rewrite He).
    change (Qfloor (2 * inject_Z 44100)) with 88200%Z.
    change (Qfloor (5 * inject_Z 44100)) with 220500%Z.
    change ((220500 - 88200 <=? 0)%Z) with false. cbv iota.
    eexists. split; [reflexivity|].
    unfold audioBufferToWav.
    rewrite length_app, length_wavHeader, length_wavData.
    unfold numberOfChannels. cbn [bufLength channelData].
    rewrite length_fmap. lia.
Qed.

Lemma audioBufferToWav_size_witness :
  exists bytes : list Z,
    exportRegion clampScale "region-abc" demoCdSession = Some bytes
    /\ Z.of_nat (length bytes) = (44 + 3 * 44100 * 2 * 2)%Z.
Proof.
  destruct (audioBufferToWav_size clampScale) as (_ & _ & Hexport).
  destruct (Hexport demoCdSession "region-abc" _ _ _
                    eq_refl eq_refl eq_refl eq_refl) as (bytes & Hb & Hlen).
  - reflexivity.
  - reflexivity.
  - exists bytes. split; [exact Hb|exact Hlen].
Defined.

(** ** The object-identity invariant

    The hypothesis [wfSession] of the statements above holds of the empty
    plugin and is kept by every operation that changes the plugin. *)

Lemma wfPlugin_empty : wfPlugin {| regions := []; nextOid := 0 |}.
Proof. split; constructor. Qed.

Lemma wfPlugin_addRegion (rnd : string) (o : RegionParams) (p : RegionsPlugin) :
  wfPlugin p -> wfPlugin (plugin_addRegion rnd o p).2.
Proof.
  intros [Hnd Hlt]. split; simpl.
  - rewrite fmap_app. apply NoDup_app. split; [exact Hnd|]. split.
    + intros n Hn. simpl. rewrite list_elem_of_singleton. intros ->.
      apply list_elem_of_fmap_1 in Hn as (r & Hr & Hin).
      eapply Forall_forall in Hlt; [|exact Hin]. lia.
    + simpl. apply NoDup_singleton.
  - apply Forall_app. split.
    + eapply Forall_impl; [exact Hlt|]. simpl. intros. lia.
    + repeat constructor.
Qed.

Lemma NoDup_fmap_filter {A B : Type} (f : A -> B) (P : A -> Prop)
      `{!forall x, Decision (P x)} (l : list A) :
  NoDup (f <$> l) -> NoDup (f <$> filter P l).
Proof.
  induction l as [|x l IH]; [done|].
  rewrite fmap_cons, NoDup_cons. intros [Hx Hnd].
  rewrite filter_cons. destruct (decide (P x)); [|by apply IH].
  rewrite fmap_cons. apply NoDup_cons. split; [|by apply IH].
  intros Hin. apply Hx.
  apply list_elem_of_fmap_1 in Hin as (y & -> & Hy).
  apply list_elem_of_filter in Hy as [_ Hy]. by apply list_elem_of_fmap_2.
Qed.

Lemma wfPlugin_remove (r : Region) (p : RegionsPlugin) :
  wfPlugin p -> wfPlugin (Region_remove r p).
Proof.
  intros [Hnd Hlt]. split; simpl.
  - by apply NoDup_fmap_filter.
  - apply Forall_forall. intros x Hx.
    apply list_elem_of_filter in Hx as [_ Hx].
    eapply Forall_forall in Hlt; [|exact Hx]. exact Hlt.
Qed.

Lemma wfSession_updateUserRegionsList (l : list Region) (s : Session) :
  wfSession s -> wfSession (updateUserRegionsList l s).
Proof. done. Qed.

Lemma wfSession_pluginAddRegion (rnd : string) (o : RegionParams)
      (p : RegionsPlugin) (s : Session) :
  wfPlugin p -> wfSession (pluginAddRegion rnd o p s).
Proof.
  intros Hwf. unfold pluginAddRegion, onRegionCreated. simpl.
  destruct (isTranscriptId _); apply (wfPlugin_addRegion rnd o p Hwf).
Qed.

Lemma wfSession_addRegion (rnd : string) (s : Session) :
  wfSession s -> wfSession (addRegion rnd s).
Proof.
  intros Hwf. unfold addRegion.
  destruct (regionsPluginRef s) as [p|] eqn:Hp; [|done].
  destruct (wavesurferRef s); [|done].
  apply wfSession_pluginAddRegion. unfold wfSession in Hwf. by rewrite Hp in Hwf.
Qed.

Lemma wfSession_removeRegion (rid : string) (s : Session) :
  wfSession s -> wfSession (removeRegion rid s).
Proof.
  intros Hwf. unfold removeRegion. apply wfSession_updateUserRegionsList.
  unfold findRegion, wfSession in *.
  destruct (regionsPluginRef s) as [p|] eqn:Hp; [|by rewrite Hp].
  destruct (List.find _ _); simpl; [by apply wfPlugin_remove|by rewrite Hp].
Qed.

Lemma wfSession_renderTranscriptRegions (env : Env) (segments : list TranscriptSegment)
      (s : Session) :
  wfSession s -> wfSession (renderTranscriptRegions env segments s).
Proof.
  intros Hwf. unfold wfSession in Hwf.
  destruct (regionsPluginRef s) as [p|] eqn:Hp.
  - destruct Hwf as [Hnd Hlt].
    rewrite (renderTranscriptRegions_eq env segments s p Hp Hnd).
    unfold wfSession. simpl. destruct (showTranscriptOnWave s).
    + split; simpl.
      * rewrite fmap_app. apply NoDup_app.
        split; [by apply NoDup_fmap_filter|]. split.
        -- intros n Hn Hin.
           apply list_elem_of_fmap_1 in Hn as (r & -> & Hr).
           apply list_elem_of_filter in Hr as [_ Hr].
           eapply Forall_forall in Hlt; [|exact Hr].
           apply list_elem_of_fmap_1 in Hin as (r' & Heq & Hr').
           apply list_elem_of_lookup in Hr' as [i Hi].
           apply list_lookup_imap_Some in Hi as (seg & _ & ->).
           simpl in Heq. lia.
        -- unfold transcriptRegionsOf. rewrite fmap_imap.
           rewrite (imap_ext _ (fun j _ => (fun k => k) (nextOid p + j)%nat)) by done.
           rewrite (imap_seq segments (fun k => k) (nextOid p)).
           rewrite list_fmap_id. apply NoDup_seq.
      * apply Forall_app. split.
        -- apply Forall_forall. intros x Hx.
           apply list_elem_of_filter in Hx as [_ Hx].
           eapply Forall_forall in Hlt; [|exact Hx]. lia.
        -- apply Forall_forall. intros x Hx.
           apply list_elem_of_lookup in Hx as [i Hi].
           apply list_lookup_imap_Some in Hi as (seg & Hseg & ->).
           apply lookup_lt_Some in Hseg. simpl. lia.
    + split; simpl.
      * by apply NoDup_fmap_filter.
      * apply Forall_forall. intros x Hx.
        apply list_elem_of_filter in Hx as [_ Hx].
        eapply Forall_forall in Hlt; [|exact Hx]. exact Hlt.
  - unfold renderTranscriptRegions, wfSession. by rewrite Hp, Hp.
Qed.

(** Two clips added at the same start, 3.0 s, are listed in the order in
    which they were added. *)
Example updateUserRegionsList_tie :
  let a := {| oid := 0; id := "region-a"; start := 3; end_ := 4;
              content := ContentText "片段"; color := userRegionColor;
              drag := true; resize := true |} in
  let b := {| oid := 1; id := "region-b"; start := 6 # 2; end_ := 9;
              content := ContentText "片段"; color := userRegionColor;
              drag := true; resize := true |} in
  let c := {| oid := 2; id := "region-c"; start := 1; end_ := 2;
              content := ContentText "片段"; color := userRegionColor;
              drag := true; resize := true |} in
  rd_id <$> formattedRegions [a; b; c] = ["region-c"; "region-a"; "region-b"].
Proof. reflexivity. Qed.

(** * Further properties *)

(** ** Zoom *)


(** X2. With the player present and the level between 1 and 1000, zooming
    out and then in gives back the level when it was at least 11 and gives
    11 otherwise; zooming in and then out gives back the level when it was
    at most 990 and gives 990 otherwise. *)
Theorem zoom_buttons_round_trip (s : Session) (ws : WaveSurfer) (z : ZoomCells) :
  wavesurferRef s = Some ws ->
  (1 <= zoom z <= 1000)%Z ->
  zoom (zoomInButton s (zoomOutButton s z)) = Z.max 11 (zoom z)
  /\ zoom (zoomOutButton s (zoomInButton s z)) = Z.min 990 (zoom z).
Proof.
  intros Hws Hz. unfold zoomInButton, zoomOutButton, handleZoom.
  rewrite Hws. simpl. lia.
Qed.

Lemma zoom_buttons_round_trip_witness :
  zoom (zoomInButton demoSession (zoomOutButton demoSession initialZoom)) = 20%Z
  /\ zoom (zoomInButton demoSession
             (zoomOutButton demoSession {| zoom := 5; playerPxPerSec := 5 |})) = 11%Z.
Proof.
  split.
  - exact (proj1 (zoom_buttons_round_trip demoSession demoPlayer initialZoom eq_refl
                    ltac:(simpl; lia))).
  - exact (proj1 (zoom_buttons_round_trip demoSession demoPlayer
                    {| zoom := 5; playerPxPerSec := 5 |} eq_refl ltac:(simpl; lia))).
Defined.

(** ** The name of the exported file *)

Lemma string_length_app (a b : string) :
  String.length (a +:+ b) = (String.length a + String.length b)%nat.
Proof. induction a as [|c a IH]; simpl; [done|]. by rewrite IH. Qed.

Lemma string_app_inv_tail (a b c : string) : a +:+ c = b +:+ c -> a = b.
Proof.
  revert b. induction a as [|x a IH]; intros [|y b] H; simpl in *.
  - done.
  - apply (f_equal String.length) in H.
    rewrite !string_length_app in H. simpl in H. lia.
  - apply (f_equal String.length) in H.
    rewrite !string_length_app in H. simpl in H. lia.
  - injection H as -> H. f_equal. by apply IH.
Qed.

Lemma allExtensionChars_dot (a b : string) :
  allExtensionChars (a +:+ String "."%char b) = false.
Proof.
  induction a as [|c a IH]; simpl; [done|].
  rewrite IH. apply andb_false_r.
Qed.

Lemma allExtensionChars_no_dot_slash (e : string) :
  occurs "."%char e = false -> occurs "/"%char e = false -> allExtensionChars e = true.
Proof.
  induction e as [|c e IH]; simpl; [done|].
  intros Hd Hs. apply orb_false_elim in Hd as [Hd1 Hd2].
  apply orb_false_elim in Hs as [Hs1 Hs2].
  rewrite IH by done. unfold isExtensionChar. by rewrite Hd1, Hs1.
Qed.

(** X3. A name that ends in a dot followed by a non-empty extension without
    dot or slash loses exactly that extension, dots in the rest of the name
    notwithstanding. *)
Theorem stripExtension_extension (base ext : string) :
  ext <> "" ->
  occurs "."%char ext = false ->
  occurs "/"%char ext = false ->
  stripExtension (base +:+ "." +:+ ext) = base.
Proof.
  intros Hne Hd Hs. induction base as [|c base IH].
  - simpl. rewrite allExtensionChars_no_dot_slash by done.
    destruct ext; [done|]. reflexivity.
  - change (String c base +:+ "." +:+ ext) with (String c (base +:+ "." +:+ ext)).
    cbn [stripExtension]. rewrite IH.
    assert (Hm : matchesExtension (String c (base +:+ "." +:+ ext)) = false).
    { unfold matchesExtension.
      change (base +:+ "." +:+ ext) with (base +:+ String "."%char ext).
      rewrite allExtensionChars_dot. apply andb_false_r. }
    by rewrite Hm.
Qed.

Lemma stripExtension_extension_witness : stripExtension "my.song.mp3" = "my.song".
Proof.
  apply (stripExtension_extension "my.song" "mp3"); [discriminate|reflexivity..].
Defined.

(** X4. A name without any dot, and a name that ends in a dot, are left as
    they are. *)
Theorem stripExtension_unchanged (name : string) :
  (occurs "."%char name = false -> stripExtension name = name)
  /\ stripExtension (name +:+ ".") = name +:+ ".".
Proof.
  split.
  - induction name as [|c name IH]; [done|].
    simpl. intros Hd. apply orb_false_elim in Hd as [Hc Hd].
    rewrite Hc. simpl. by rewrite IH.
  - induction name as [|c name IH]; [done|].
    change (String c name +:+ ".") with (String c (name +:+ ".")).
    cbn [stripExtension]. rewrite IH.
    assert (Hm : matchesExtension (String c (name +:+ ".")) = false).
    { unfold matchesExtension. change (name +:+ ".") with (name +:+ String "."%char "").
      rewrite allExtensionChars_dot. apply andb_false_r. }
    by rewrite Hm.
Qed.

Lemma stripExtension_unchanged_witness : stripExtension "README" = "README".
Proof. exact (proj1 (stripExtension_unchanged "README") eq_refl). Defined.


Lemma pretty_N_go_small (x : N) (s : string) :
  (0 < x < 10)%N -> pretty_N_go x s = String (pretty_N_char x) s.
Proof.
  intros Hx. rewrite pretty_N_go_step by lia.
  rewrite N.div_small, N.mod_small by lia. apply pretty_N_go_0.
Qed.

Lemma pretty_N_char_nonzero (x : N) :
  (0 < x < 10)%N -> pretty_N_char x <> "0"%char.
Proof.
  intros Hx Heq. assert (x = 0%N); [|lia].
  apply pretty_N_char_inj; [lia|lia|exact Heq].
Qed.

(** The decimal numeral of a positive number starts with a non-zero digit
    and has at least two digits from ten on. *)
Lemma pretty_N_go_head (x : N) :
  (0 < x)%N ->
  forall s, exists c r,
      pretty_N_go x s = String c r
      /\ c <> "0"%char
      /\ (S (String.length s) <= String.length (String c r))%nat
      /\ ((10 <= x)%N -> (2 + String.length s <= String.length (String c r))%nat).
Proof.
  induction (N.lt_wf_0 x) as [x _ IH]. intros Hx s.
  destruct (decide (x < 10)%N) as [Hsmall|Hbig].
  - rewrite pretty_N_go_small by lia. eexists _, _. split; [done|].
    split; [apply pretty_N_char_nonzero; lia|]. simpl. split; lia.
  - rewrite pretty_N_go_step by lia.
    assert (Hdiv : (0 < x `div` 10 < x)%N).
    { split; [apply N.div_str_pos; lia|apply N.div_lt; lia]. }
    destruct (IH (x `div` 10)%N ltac:(lia) ltac:(lia)
                 (String (pretty_N_char (x `mod` 10)) s)) as (c & r & -> & Hc & Hlen & _).
    eexists _, _. split; [done|]. split; [done|]. simpl in *. split; lia.
Qed.

Lemma pretty_nat_positive (n : nat) :
  (0 < n)%nat -> pretty n = pretty_N_go (N.of_nat n) "".
Proof.
  intros Hn. unfold pretty, pretty_nat, pretty, pretty_N.
  destruct (decide (N.of_nat n = 0%N)); [lia|done].
Qed.

Lemma padStart_two (s : string) :
  padStart 2 "0"%char s
  = match s with
    | EmptyString => "00"
    | String c EmptyString => String "0"%char s
    | _ => s
    end.
Proof. by destruct s as [|c [|d r]]. Qed.

Lemma clipOrdinal_cases (index : nat) :
  (index < 9 /\ clipOrdinal index = String "0"%char (pretty (index + 1)%nat)
   /\ String.length (pretty (index + 1)%nat) = 1)%nat
  \/ (9 <= index /\ clipOrdinal index = pretty (index + 1)%nat
      /\ 2 <= String.length (pretty (index + 1)%nat))%nat.
Proof.
  unfold clipOrdinal. rewrite padStart_two.
  rewrite pretty_nat_positive by lia.
  destruct (decide (index < 9)%nat) as [Hs|Hb].
  - left. rewrite pretty_N_go_small by lia. done.
  - right. split; [lia|].
    destruct (pretty_N_go_head (N.of_nat (index + 1)) ltac:(lia) "")
      as (c & r & Heq & _ & _ & Hlen).
    rewrite Heq in *. specialize (Hlen ltac:(lia)). simpl in Hlen.
    destruct r; [simpl in Hlen; lia|]. split; [done|simpl; lia].
Qed.

(** X5. The ordinal of a clip has at least two characters: a zero followed
    by the decimal numeral of [index + 1] for the first nine clips, the
    numeral itself from the tenth on. *)
Theorem clipOrdinal_padded (index : nat) :
  (2 <= String.length (clipOrdinal index))%nat
  /\ ((index < 9)%nat -> clipOrdinal index = "0" +:+ pretty (index + 1)%nat)
  /\ ((9 <= index)%nat -> clipOrdinal index = pretty (index + 1)%nat).
Proof.
  destruct (clipOrdinal_cases index) as [(Hi & -> & Hlen)|(Hi & -> & Hlen)].
  - split; [simpl; lia|]. split; [done|lia].
  - split; [lia|]. split; [lia|done].
Qed.

Lemma clipOrdinal_padded_witness :
  clipOrdinal 4 = "05" /\ clipOrdinal 11 = "12".
Proof.
  split.
  - rewrite (proj1 (proj2 (clipOrdinal_padded 4))) by lia. reflexivity.
  - rewrite (proj2 (proj2 (clipOrdinal_padded 11))) by lia. reflexivity.
Defined.

Lemma clipOrdinal_inj (i j : nat) : clipOrdinal i = clipOrdinal j -> i = j.
Proof.
  intros Heq.
  assert (Hinj : pretty (i + 1)%nat = pretty (j + 1)%nat -> i = j).
  { intros H. apply (inj pretty) in H. lia. }
  destruct (clipOrdinal_cases i) as [(Hi & Ei & Li)|(Hi & Ei & Li)],
           (clipOrdinal_cases j) as [(Hj & Ej & Lj)|(Hj & Ej & Lj)];
    rewrite Ei, Ej in Heq.
  - injection Heq as Heq. auto.
  - exfalso. rewrite (pretty_nat_positive (j + 1)) in Heq by lia.
    destruct (pretty_N_go_head (N.of_nat (j + 1)) ltac:(lia) "")
      as (c & r & Hc & Hnz & _).
    rewrite Hc in Heq. injection Heq as Heq _. congruence.
  - exfalso. rewrite (pretty_nat_positive (i + 1)) in Heq by lia.
    destruct (pretty_N_go_head (N.of_nat (i + 1)) ltac:(lia) "")
      as (c & r & Hc & Hnz & _).
    rewrite Hc in Heq. injection Heq as Heq _. congruence.
  - auto.
Qed.

(** X6. Two clips of one file at different positions of the list are
    exported under different names. *)
Theorem downloadName_distinct (fileName : string) (i j : nat) :
  i <> j -> downloadName fileName i <> downloadName fileName j.
Proof.
  intros Hne Heq. apply Hne. unfold downloadName in Heq.
  apply (inj (String.append _)) in Heq.
  apply (inj (String.append _)) in Heq.
  apply string_app_inv_tail in Heq. by apply clipOrdinal_inj.
Qed.

Lemma downloadName_distinct_witness :
  downloadName "my.song.mp3" 0 <> downloadName "my.song.mp3" 10.
Proof. apply downloadName_distinct. lia. Defined.

(** ** [fileToBase64] *)

Lemma splitComma_no_comma (s : string) :
  occurs ","%char s = false -> splitComma s = [s].
Proof.
  induction s as [|c s IH]; simpl; [done|].
  intros H. apply orb_false_elim in H as [Hc Hs].
  by rewrite Hc, IH.
Qed.

Lemma splitComma_head (h rest : string) :
  occurs ","%char h = false ->
  splitComma (h +:+ String ","%char rest) = h :: splitComma rest.
Proof.
  induction h as [|c h IH]; intros H.
  - done.
  - simpl in H. apply orb_false_elim in H as [Hc Hs].
    change (String c h +:+ String ","%char rest)
      with (String c (h +:+ String ","%char rest)).
    cbn [splitComma]. by rewrite Hc, IH.
Qed.

(** X7. From a data URL whose header holds no comma, [fileToBase64] yields
    the text after the first comma up to the next one, which is the whole
    payload when the payload holds no comma; from a text without any comma
    it yields [undefined]. *)
Theorem base64OfDataUrl_payload (header payload : string) :
  occurs ","%char header = false ->
  (occurs ","%char payload = false ->
   base64OfDataUrl (header +:+ "," +:+ payload) = Some payload)
  /\ (forall more, occurs ","%char payload = false ->
                   base64OfDataUrl (header +:+ "," +:+ payload +:+ "," +:+ more)
                   = Some payload)
  /\ base64OfDataUrl header = None.
Proof.
  intros Hh. unfold base64OfDataUrl. split; [|split].
  - intros Hp.
    change (header +:+ "," +:+ payload) with (header +:+ String ","%char payload).
    by rewrite splitComma_head, splitComma_no_comma.
  - intros more Hp.
    change (header +:+ "," +:+ payload +:+ "," +:+ more)
      with (header +:+ String ","%char (payload +:+ String ","%char more)).
    by rewrite !splitComma_head.
  - by rewrite splitComma_no_comma.
Qed.

Lemma base64OfDataUrl_payload_witness :
  base64OfDataUrl "data:audio/mpeg;base64,SUQzBAA=" = Some "SUQzBAA=".
Proof.
  exact (proj1 (base64OfDataUrl_payload "data:audio/mpeg;base64" "SUQzBAA=" eq_refl)
               eq_refl).
Defined.


(** ** More on the slicer *)











(** ** The overlay switch *)

Lemma transcriptRegionsOf_cons (env : Env) (seg : TranscriptSegment)
      (rest : list TranscriptSegment) (idx n : nat) :
  transcriptRegionsOf env (seg :: rest) idx n
  = newRegion "" (transcriptParams env seg idx) n
    :: transcriptRegionsOf env rest (S idx) (S n).
Proof.
  unfold transcriptRegionsOf. simpl. rewrite !Nat.add_0_r. f_equal.
  apply imap_ext. intros i x _. simpl. f_equal; [f_equal|]; lia.
Qed.

Lemma transcriptRegionsOf_view (env : Env) (segments : list TranscriptSegment)
      (idx n m : nat) :
  regionView <$> transcriptRegionsOf env segments idx n
  = regionView <$> transcriptRegionsOf env segments idx m.
Proof.
  revert idx n m. induction segments as [|seg rest IH]; intros idx n m; [done|].
  rewrite !transcriptRegionsOf_cons, !fmap_cons. f_equal. apply IH.
Qed.

Lemma toggle_eq (env : Env) (s : Session) (p : RegionsPlugin) :
  regionsPluginRef s = Some p ->
  NoDup (oid <$> regions p) ->
  toggleTranscriptOnWave env s
  = set_plugin
      (Some (if showTranscriptOnWave s
             then {| regions := filter isUserRegion (regions p);
                     nextOid := nextOid p |}
             else {| regions := filter isUserRegion (regions p)
                                ++ transcriptRegionsOf env (transcriptSegments s) 0
                                                       (nextOid p);
                     nextOid := nextOid p + length (transcriptSegments s) |}))
      (setShowTranscriptOnWave (negb (showTranscriptOnWave s)) s).
Proof.
  intros Hp Hnd. unfold toggleTranscriptOnWave.
  rewrite (renderTranscriptRegions_eq env _ _ p) by done.
  simpl. by destruct (showTranscriptOnWave s).
Qed.

(** X11. Switching the shown overlay off takes every transcript region out
    of the plugin and nothing else: the user regions, the clip list and the
    stored transcript are as before. *)
Theorem toggleTranscriptOnWave_hides (env : Env) (s : Session) :
  wfSession s ->
  showTranscriptOnWave s = true ->
  let s' := toggleTranscriptOnWave env s in
  showTranscriptOnWave s' = false
  /\ filter isTranscriptRegion (currentRegions s') = []
  /\ filter isUserRegion (currentRegions s') = filter isUserRegion (currentRegions s)
  /\ transcriptSegments s' = transcriptSegments s
  /\ userRegions s' = userRegions s
  /\ activeRegionId s' = activeRegionId s.
Proof.
  intros Hwf Hshow. simpl. unfold wfSession in Hwf.
  destruct (regionsPluginRef s) as [p|] eqn:Hp.
  - destruct Hwf as [Hnd _]. rewrite (toggle_eq env s p Hp Hnd), Hshow.
    unfold currentRegions. rewrite Hp. simpl. unfold getRegions. simpl.
    rewrite filter_transcript_user, filter_user_user. done.
  - unfold toggleTranscriptOnWave, renderTranscriptRegions, currentRegions.
    simpl. rewrite Hp. simpl. rewrite Hp, Hshow. done.
Qed.

(** The session of the examples with one clip and the overlay of the
    example transcript. *)
Lemma toggleTranscriptOnWave_hides_witness :
  let s := renderTranscriptRegions demoEnv demoSegments demoClipSession in
  id <$> currentRegions s = ["region-abc"; "transcript-0"; "transcript-1"]
  /\ filter isTranscriptRegion (currentRegions (toggleTranscriptOnWave demoEnv s)) = [].
Proof.
  split; [reflexivity|].
  apply (toggleTranscriptOnWave_hides demoEnv
           (renderTranscriptRegions demoEnv demoSegments demoClipSession)).
  - split; [apply (bool_decide_unpack _); exact I|].
    repeat (constructor; [vm_compute; lia|]). constructor.
  - reflexivity.
Defined.

(** X12. Switching the overlay off and on again shows what a replace with
    the stored transcript shows: the same regions in the same order, with
    the same ids, bounds, texts and colours. *)
Theorem toggleTranscriptOnWave_round_trip (env : Env) (s : Session) :
  wfSession s ->
  showTranscriptOnWave s = true ->
  let s2 := toggleTranscriptOnWave env (toggleTranscriptOnWave env s) in
  let s1 := renderTranscriptRegions env (transcriptSegments s) s in
  regionView <$> currentRegions s2 = regionView <$> currentRegions s1
  /\ showTranscriptOnWave s2 = true
  /\ transcriptSegments s2 = transcriptSegments s
  /\ userRegions s2 = userRegions s.
Proof.
  intros Hwf Hshow. simpl. unfold wfSession in Hwf.
  destruct (regionsPluginRef s) as [p|] eqn:Hp.
  - destruct Hwf as [Hnd _].
    rewrite (toggle_eq env s p Hp Hnd), Hshow.
    erewrite toggle_eq; [|reflexivity|simpl; by apply NoDup_fmap_filter].
    rewrite (renderTranscriptRegions_eq env _ s p Hp Hnd), Hshow.
    unfold currentRegions. simpl. unfold getRegions. simpl.
    rewrite filter_user_user, !fmap_app.
    split; [|done]. f_equal; apply transcriptRegionsOf_view.
  - unfold toggleTranscriptOnWave, renderTranscriptRegions, currentRegions.
    simpl. rewrite Hp. simpl. rewrite Hp. simpl. rewrite Hp, Hshow. done.
Qed.

Lemma toggleTranscriptOnWave_round_trip_witness :
  let s := transcribeAfterReply demoEnv (Parsed demoSegments) demoClipSession in
  id <$> currentRegions (toggleTranscriptOnWave demoEnv (toggleTranscriptOnWave demoEnv s))
  = ["region-abc"; "transcript-0"; "transcript-1"].
Proof.
  simpl.
  destruct (toggleTranscriptOnWave_round_trip demoEnv
              (transcribeAfterReply demoEnv (Parsed demoSegments) demoClipSession))
    as (Hview & _).
  - split; [apply (bool_decide_unpack _); exact I|].
    repeat (constructor; [vm_compute; lia|]). constructor.
  - reflexivity.
  - apply (f_equal (fmap (fun v => v.1.1.1.1.1.1))) in Hview.
    rewrite <- !list_fmap_compose in Hview. exact Hview.
Defined.


(** ** Looking regions up by id *)

Lemma find_app_skip {A : Type} (f : A -> bool) (l1 l2 : list A) :
  Forall (fun x => f x = false) l1 -> List.find f (l1 ++ l2) = List.find f l2.
Proof.
  induction 1 as [|x l1 Hx _ IH]; simpl; [done|]. by rewrite Hx.
Qed.





(** ** Marking and removing a clip *)

(** X14. Marking a clip and removing it again by its id gives back the
    regions the plugin held before, provided no region held before carries
    the generated id. *)
Theorem removeRegion_addRegion (rnd : string) (s : Session) :
  wfSession s ->
  regionsPluginRef s <> None ->
  wavesurferRef s <> None ->
  Forall (fun r => id r <> "region-" +:+ rnd) (currentRegions s) ->
  let s' := removeRegion ("region-" +:+ rnd) (addRegion rnd s) in
  currentRegions s' = currentRegions s
  /\ userRegions s' = formattedRegions (currentRegions s).
Proof.
  intros Hwf Hp Hws Hfresh. simpl. unfold wfSession, currentRegions in *.
  destruct (regionsPluginRef s) as [[l n]|] eqn:Ep; [|done].
  destruct (wavesurferRef s) as [ws|] eqn:Ews; [|done].
  destruct Hwf as [Hnd Hlt]. simpl in *. unfold getRegions in *. simpl in *.
  unfold addRegion. rewrite Ep, Ews.
  unfold pluginAddRegion, plugin_addRegion, onRegionCreated. simpl.
  unfold removeRegion, findRegion. simpl. unfold getRegions. simpl.
  rewrite find_app_skip.
  - simpl. rewrite String.eqb_refl. simpl.
    assert (Hl : filter (fun x : Region => negb (oid x =? n)%nat)
                        (l ++ [newRegion rnd
                                 {| p_id := None; p_start := ws_currentTime ws;
                                    p_end := ws_currentTime ws + 5;
                                    p_content := ContentText "片段";
                                    p_color := userRegionColor;
                                    p_drag := true; p_resize := true |} n]) = l).
    { rewrite filter_app, filter_cons_False by (simpl; rewrite Nat.eqb_refl; intros []).
      simpl. rewrite app_nil_r. apply filter_other_oids.
      intros Hin. apply list_elem_of_fmap_1 in Hin as (r & Hr & Hin).
      eapply Forall_forall in Hlt; [|exact Hin]. simpl in Hlt. lia. }
    unfold getRegions. simpl. by rewrite Hl.
  - eapply Forall_impl; [exact Hfresh|]. simpl. intros r Hr.
    by apply String.eqb_neq.
Qed.

Lemma removeRegion_addRegion_witness :
  currentRegions (removeRegion "region-xyz" (addRegion "xyz" demoClipSession))
  = currentRegions demoClipSession.
Proof.
  refine (proj1 (removeRegion_addRegion "xyz" demoClipSession _ _ _ _)).
  - split; [apply (bool_decide_unpack _); exact I|].
    repeat (constructor; [vm_compute; lia|]). constructor.
  - discriminate.
  - discriminate.
  - repeat constructor. discriminate.
Defined.




(** ** The transcription call, step by step *)

Lemma transcribe_call_completes_witness :
  isTranscribing (handleTranscribe demoEnv demoSession) = true
  /\ isTranscribing
       (transcribeAfterReply demoEnv Unparsable
          (transcribeAfterRead true (handleTranscribe demoEnv demoSession))) = false.
Proof.
  destruct (transcribe_call_completes demoEnv Unparsable demoSession eq_refl eq_refl)
    as (H1 & _ & _ & H2 & _).
  split; [exact H1|exact H2].
Defined.


(** X18. A call whose file cannot be read never sends a request: it raises
    the flag, logs one line when the read fails, lowers the flag and leaves
    the request count, the transcript, the plugin and the clip list as they
    were before the call. *)
Theorem transcribe_read_failure (env : Env) (s : Session) :
  noApiKey env = false ->
  isTranscribing s = false ->
  let s' := transcribeAfterRead false (handleTranscribe env s) in
  requestsSent s' = requestsSent s
  /\ callsPending s' = callsPending s
  /\ isTranscribing s' = false
  /\ transcriptSegments s' = transcriptSegments s
  /\ regionsPluginRef s' = regionsPluginRef s
  /\ userRegions s' = userRegions s
  /\ consoleErrors s' = consoleErrors s ++ ["Transcription failed"].
Proof.
  intros Hkey Hflag. unfold handleTranscribe. rewrite Hkey, Hflag. done.
Qed.

Lemma transcribe_read_failure_witness :
  requestsSent (transcribeAfterRead false (handleTranscribe demoEnv demoSession)) = 0%nat
  /\ isTranscribing (transcribeAfterRead false (handleTranscribe demoEnv demoSession))
     = false.
Proof.
  destruct (transcribe_read_failure demoEnv demoSession eq_refl eq_refl)
    as (H1 & _ & H2 & _).
  split; [exact H1|exact H2].
Defined.




(** ** Sessions that events can produce *)

Lemma formattedRegions_filter (l : list Region) :
  formattedRegions l = formattedRegions (filter isUserRegion l).
Proof.
  unfold formattedRegions.
  change (fun r => Is_true (negb (isTranscriptId (id r))))
    with (fun r => Is_true (isUserRegion r)).
  by rewrite filter_user_user.
Qed.

Lemma formattedRegions_sorted (l : list Region) :
  StronglySorted (fun a b => rd_start a <= rd_start b) (formattedRegions l).
Proof.
  unfold formattedRegions.
  pose proof (arraySort_sorted start
                (filter (fun r => negb (isTranscriptId (id r))) l)) as Hs.
  remember (arraySort (fun a b => start a - start b)
                      (filter (fun r => negb (isTranscriptId (id r))) l)) as sorted.
  clear Heqsorted. induction Hs as [|r rest Hs IH Hr]; [constructor|].
  rewrite fmap_cons. constructor; [exact IH|].
  apply Forall_fmap. eapply Forall_impl; [exact Hr|]. done.
Qed.

Lemma formattedRegions_ids (l : list Region) (d : RegionData) :
  d ∈ formattedRegions l -> isTranscriptId (rd_id d) = false.
Proof.
  unfold formattedRegions. intros Hd.
  apply list_elem_of_fmap_1 in Hd as (r & -> & Hr).
  rewrite (arraySort_perm start) in Hr.
  apply list_elem_of_filter in Hr as [Hu _]. simpl.
  destruct (isTranscriptId (id r)); [done|done].
Qed.

Lemma renderTranscriptRegions_user (env : Env) (segments : list TranscriptSegment)
      (s : Session) :
  wfSession s ->
  filter isUserRegion (currentRegions (renderTranscriptRegions env segments s))
  = filter isUserRegion (currentRegions s)
  /\ userRegions (renderTranscriptRegions env segments s) = userRegions s
  /\ activeRegionId (renderTranscriptRegions env segments s) = activeRegionId s.
Proof.
  intros Hwf. unfold wfSession in Hwf.
  destruct (regionsPluginRef s) as [p|] eqn:Hp.
  - destruct Hwf as [Hnd _].
    rewrite (renderTranscriptRegions_eq env segments s p Hp Hnd).
    unfold currentRegions at 1 2. rewrite Hp. simpl. unfold getRegions.
    split; [|done]. destruct (showTranscriptOnWave s); simpl.
    + rewrite filter_app, filter_user_user.
      rewrite (filter_user_transcript (transcriptRegionsOf env segments 0 (nextOid p)))
        by apply transcriptRegionsOf_all_transcript.
      by rewrite app_nil_r.
    + apply filter_user_user.
  - unfold renderTranscriptRegions. by rewrite Hp.
Qed.

Lemma sessionInvariant_render (env : Env) (segments : list TranscriptSegment) (s : Session) :
  sessionInvariant s -> sessionInvariant (renderTranscriptRegions env segments s).
Proof.
  intros (Hwf & Hlist & Hact).
  destruct (renderTranscriptRegions_user env segments s Hwf) as (Hf & Hu & Ha).
  split; [by apply wfSession_renderTranscriptRegions|]. split.
  - rewrite Hu, Hlist, formattedRegions_filter, <- Hf. symmetry.
    apply formattedRegions_filter.
  - by rewrite Ha.
Qed.

Lemma sessionInvariant_pluginAddRegion (rnd : string) (o : RegionParams)
      (p : RegionsPlugin) (s : Session) :
  regionsPluginRef s = Some p ->
  sessionInvariant s -> sessionInvariant (pluginAddRegion rnd o p s).
Proof.
  intros Hp (Hwf & Hlist & Hact).
  assert (Hwfp : wfPlugin p) by (unfold wfSession in Hwf; by rewrite Hp in Hwf).
  split; [by apply wfSession_pluginAddRegion|].
  unfold pluginAddRegion, plugin_addRegion, onRegionCreated.
  destruct (isTranscriptId (id (newRegion rnd o (nextOid p)))) eqn:E.
  - split; [|exact Hact]. simpl. rewrite Hlist.
    unfold currentRegions. rewrite Hp. simpl. unfold getRegions. simpl.
    rewrite formattedRegions_filter, (formattedRegions_filter (_ ++ _)), filter_app.
    rewrite filter_cons_False by (unfold isUserRegion; rewrite E; intros []).
    by rewrite app_nil_r.
  - split; [done|]. simpl. by intros rid [= <-].
Qed.

Lemma filter_user_update (l : list Region) (n : nat) (rstart rend : Q) (r : Region) :
  NoDup (oid <$> l) -> r ∈ l -> oid r = n -> isTranscriptId (id r) = true ->
  filter isUserRegion
         ((fun x => if (oid x =? n)%nat then Region_setBounds rstart rend x else x) <$> l)
  = filter isUserRegion l.
Proof.
  intros Hnd Hr Hn Ht.
  assert (Hall : forall x, x ∈ l ->
             (if (oid x =? n)%nat then Region_setBounds rstart rend x else x) = x
             \/ (isUserRegion x = false
                 /\ isUserRegion (if (oid x =? n)%nat
                                  then Region_setBounds rstart rend x else x) = false)).
  { intros x Hx. destruct (Nat.eqb_spec (oid x) n) as [Heq|]; [|by left].
    right. assert (x = r) by (eapply oid_inj_in; eauto; congruence). subst x.
    unfold isUserRegion. simpl. by rewrite Ht. }
  clear Hnd Hr. induction l as [|x l IH]; [done|].
  rewrite fmap_cons, !filter_cons.
  rewrite IH by (intros y Hy; apply Hall; by right).
  destruct (Hall x ltac:(by left)) as [-> | [H1 H2]]; [done|].
  rewrite H1, H2. done.
Qed.

Lemma update_oids (l : list Region) (n : nat) (rstart rend : Q) :
  oid <$> ((fun x => if (oid x =? n)%nat then Region_setBounds rstart rend x else x) <$> l)
  = oid <$> l.
Proof.
  rewrite <- list_fmap_compose. apply list_fmap_ext. intros i x _. simpl.
  by destruct (oid x =? n)%nat.
Qed.

Lemma wfPlugin_update (n : nat) (rstart rend : Q) (p : RegionsPlugin) :
  wfPlugin p -> wfPlugin (plugin_updateRegion n rstart rend p).
Proof.
  intros [Hnd Hlt]. split; simpl.
  - by rewrite update_oids.
  - apply Forall_fmap. eapply Forall_impl; [exact Hlt|]. simpl. intros x Hx.
    by destruct (oid x =? n)%nat.
Qed.

Lemma removeRegion_active (rid : string) (s : Session) :
  activeRegionId (removeRegion rid s) = activeRegionId s.
Proof.
  unfold removeRegion. destruct (findRegion rid s), (regionsPluginRef s); done.
Qed.

Lemma sessionInvariant_step (env : Env) (e : Event) (s : Session) :
  sessionInvariant s -> sessionInvariant (step env e s).
Proof.
  intros Hinv. pose proof Hinv as (Hwf & Hlist & Hact).
  destruct e as [rnd|rnd rstart rend c|n rstart rend|k| |n|k| | |ws|ok|r]; simpl.
  - (* mark *)
    unfold addRegion. destruct (regionsPluginRef s) as [p|] eqn:Hp; [|done].
    destruct (wavesurferRef s); [|done]. by apply sessionInvariant_pluginAddRegion.
  - (* creation by the plugin *)
    destruct (regionsPluginRef s) as [p|] eqn:Hp; [|done].
    by apply sessionInvariant_pluginAddRegion.
  - (* update by the plugin *)
    destruct (regionsPluginRef s) as [p|] eqn:Hp; [|done].
    destruct (List.find _ _) as [r|] eqn:Hfind; [|done].
    destruct (drag r || resize r); [|done].
    assert (Hwfp : wfPlugin p) by (unfold wfSession in Hwf; by rewrite Hp in Hwf).
    apply find_some in Hfind as [Hin Hoid]. apply Nat.eqb_eq in Hoid.
    apply list_elem_of_In in Hin. unfold getRegions in Hin.
    unfold onRegionUpdated. simpl.
    destruct (isTranscriptId (id r)) eqn:E.
    + split; [by apply wfPlugin_update|]. split; [|exact Hact]. simpl.
      rewrite Hlist. unfold currentRegions. rewrite Hp. simpl. unfold getRegions. simpl.
      rewrite formattedRegions_filter, (formattedRegions_filter (_ <$> _)).
      by erewrite filter_user_update; [|apply Hwfp|exact Hin|exact Hoid|exact E].
    + split; [by apply wfPlugin_update|]. split; [done|exact Hact].
  - (* remove *)
    destruct (userRegions s !! k) as [d|]; [|done].
    split; [by apply wfSession_removeRegion|]. split; [done|].
    by rewrite removeRegion_active.
  - (* click on the waveform *)
    split; [exact Hwf|]. split; [exact Hlist|]. by intros rid.
  - (* click on a region *)
    destruct (List.find _ _) as [r|]; [|done]. unfold onRegionClicked.
    destruct (isTranscriptId (id r)) eqn:E; [done|].
    split; [exact Hwf|]. split; [exact Hlist|]. simpl. by intros rid [= <-].
  - (* click on a clip *)
    destruct (userRegions s !! k) as [d|] eqn:Hk; [|done].
    assert (Hd : isTranscriptId (rd_id d) = false).
    { apply (formattedRegions_ids (currentRegions s)). rewrite <- Hlist.
      by eapply list_elem_of_lookup_2. }
    unfold onClipClick. simpl.
    destruct (wavesurferRef s); (split; [exact Hwf|]; split; [exact Hlist|]);
      simpl; by intros rid [= <-].
  - (* overlay switch *)
    unfold toggleTranscriptOnWave. by apply sessionInvariant_render.
  - (* theme *)
    by apply sessionInvariant_render.
  - (* ready *)
    unfold onReady, handleTranscribe. simpl.
    destruct (enableTranscription env); [|done].
    by destruct (noApiKey env || isTranscribing s).
  - (* the file read ends *)
    by destruct ok.
  - (* the request ends *)
    destruct r as [| |parsed]; [done|done|]. simpl.
    destruct (sessionInvariant_render env parsed (setTranscriptSegments parsed s) Hinv)
      as (H1 & H2 & H3).
    done.
Qed.

Lemma sessionInvariant_run (trace : list (Env * Event)) (s : Session) :
  sessionInvariant s -> sessionInvariant (run trace s).
Proof.
  revert s. induction trace as [|[env e] trace IH]; intros s Hs; [done|].
  simpl. apply IH. by apply sessionInvariant_step.
Qed.

Lemma sessionInvariant_mounted (ws : WaveSurfer) : sessionInvariant (mountedSession ws).
Proof.
  split; [apply wfPlugin_empty|]. split; [done|]. intros rid. discriminate.
Qed.

(** X20. After any sequence of events on a mounted editor the clip list is
    in step with the plugin: it is the list of the plugin's user regions,
    sorted ascending by start time. *)
Theorem clip_list_in_step (ws : WaveSurfer) (trace : list (Env * Event)) :
  let s := run trace (mountedSession ws) in
  userRegions s = formattedRegions (currentRegions s)
  /\ userRegions s ≡ₚ toRegionData <$> filter isUserRegion (currentRegions s)
  /\ StronglySorted (fun a b => rd_start a <= rd_start b) (userRegions s).
Proof.
  simpl.
  destruct (sessionInvariant_run trace (mountedSession ws) (sessionInvariant_mounted ws))
    as (_ & Hlist & _).
  split; [exact Hlist|]. rewrite Hlist.
  split; [|apply formattedRegions_sorted].
  unfold formattedRegions.
  change (fun r => Is_true (negb (isTranscriptId (id r))))
    with (fun r => Is_true (isUserRegion r)).
  apply fmap_Permutation, arraySort_perm.
Qed.

(** X21. After any sequence of events on a mounted editor the active
    region, if there is one, is not a transcript region, and no entry of
    the clip list is one. *)
Theorem active_region_is_user_region (ws : WaveSurfer) (trace : list (Env * Event)) :
  let s := run trace (mountedSession ws) in
  (forall rid, activeRegionId s = Some rid -> isTranscriptId rid = false)
  /\ Forall (fun d => isTranscriptId (rd_id d) = false) (userRegions s).
Proof.
  simpl.
  destruct (sessionInvariant_run trace (mountedSession ws) (sessionInvariant_mounted ws))
    as (_ & Hlist & Hact).
  split; [exact Hact|]. apply Forall_forall. intros d Hd.
  rewrite Hlist in Hd. by eapply formattedRegions_ids.
Qed.













(** ** The [App] component *)

(** X23. While the editor is open, that is, from the choice of a file up to
    the back button, no event changes the file or the transcription
    preference the editor was mounted with; and after any sequence of
    events the document carries the [dark] class exactly when the theme is
    dark. *)
Theorem editor_props_stable (events : list AppEvent) (st : AppState) (f : File) :
  app_file st = Some f ->
  Forall (fun e => e <> AppCloseEditor) events ->
  app_file (appRun events st) = Some f
  /\ app_enableTranscription (appRun events st) = app_enableTranscription st
  /\ (forall apiKey,
         enableTranscription (editorEnv apiKey (appRun events st))
         = enableTranscription (editorEnv apiKey st))
  /\ darkClass (appRun events initialApp) = app_isDarkMode (appRun events initialApp).
Proof.
  intros Hf Hev. split; [|split; [|split]].
  - revert st Hf. induction Hev as [|e events He _ IH]; intros st Hf; [done|].
    simpl. apply IH. unfold appStep, offered. rewrite Hf.
    destruct e; try done.
  - revert st Hf. induction Hev as [|e events He _ IH]; intros st Hf; [done|].
    simpl. rewrite IH.
    + unfold appStep, offered. rewrite Hf. by destruct e.
    + unfold appStep, offered. rewrite Hf. destruct e; try done.
  - intros apiKey. simpl.
    revert st Hf. induction Hev as [|e events He _ IH]; intros st Hf; [done|].
    simpl. rewrite IH.
    + unfold appStep, offered. rewrite Hf. by destruct e.
    + unfold appStep, offered. rewrite Hf. destruct e; try done.
  - clear. assert (Hinv : forall st0, darkClass st0 = app_isDarkMode st0 ->
                        darkClass (appRun events st0) = app_isDarkMode (appRun events st0)).
    { induction events as [|e events IH]; intros st0 H0; [done|].
      simpl. apply IH. unfold appStep.
      destruct (offered st0 e); [|done].
      destruct e as [|[|g files]| |]; simpl; done. }
    by apply Hinv.
Qed.

Lemma editor_props_stable_witness :
  let song := {| file_name := "song.mp3"; file_type := "audio/mpeg" |} in
  let opened := appRun [AppCheckTranscription true; AppFileChange [song]] initialApp in
  app_file (appRun [AppToggleTheme; AppCheckTranscription false; AppFileChange []] opened)
  = Some song
  /\ app_enableTranscription
       (appRun [AppToggleTheme; AppCheckTranscription false; AppFileChange []] opened)
     = true.
Proof.
  simpl.
  destruct (editor_props_stable
              [AppToggleTheme; AppCheckTranscription false; AppFileChange []]
              (appRun [AppCheckTranscription true;
                       AppFileChange [{| file_name := "song.mp3";
                                         file_type := "audio/mpeg" |}]] initialApp)
              {| file_name := "song.mp3"; file_type := "audio/mpeg" |})
    as (H1 & H2 & _).
  - reflexivity.
  - repeat constructor; discriminate.
  - split; [exact H1|exact H2].
Defined.

(** ** Selecting a clip *)




(** ** The transcription indicator *)


